(** * CodexMonitor: the composer's trigger parser, completion controller and
      the debounced file-search hook.

    Shallow embedding of
      - [src/components/Composer.tsx]  ([findAtQuery], [slashQuery], [atState],
        [applyText], the select / dismiss / arrow-key handlers and the two
        [completionIndex] effects), and
      - the [useFileSearch] hook (request counter, debounce timer, response
        handling).

    JavaScript strings are sequences of UTF-16 code units; every index and
    length of the source counts code units, so a string is a [list Z] here. *)

From Stdlib Require Import ZArith Lia Bool String Ascii.
From stdpp Require Import base option list.

Local Open Scope Z_scope.

(* ===================================================================== *)
(** ** JavaScript string primitives used by the source *)
(* ===================================================================== *)

Module Js.

Definition char := Z.
Definition str := list char.

(** An ASCII literal of the source as code units. *)
Definition of_ascii (s : string) : str :=
  map (fun a => Z.of_nat (nat_of_ascii a)) (list_ascii_of_string s).

(** [s.length] *)
Definition len (s : str) : Z := Z.of_nat (length s).

(** Relative index of [String.prototype.slice]: negative counts from the
    end, everything is clamped to [0, len]. *)
Definition rel (n i : Z) : Z :=
  if i <? 0 then Z.max (n + i) 0 else Z.min i n.

(** [s.slice(start, end)]; [end_ = None] is the one-argument call. *)
Definition slice (s : str) (start : Z) (end_ : option Z) : str :=
  let n := len s in
  let from := rel n start in
  let to := match end_ with None => n | Some e => rel n e end in
  take (Z.to_nat (Z.max (to - from) 0)) (drop (Z.to_nat from) s).

(** [s.startsWith(p)] *)
Fixpoint startsWith (s p : str) {struct p} : bool :=
  match p with
  | [] => true
  | c :: p' =>
      match s with
      | [] => false
      | x :: s' => (x =? c) && startsWith s' p'
      end
  end.

(** [s.includes(p)] *)
Fixpoint includes (s p : str) : bool :=
  startsWith s p ||
  match s with
  | [] => false
  | _ :: s' => includes s' p
  end.

(** [s.lastIndexOf(p)], with the positions of [s] numbered from [i]:
    the greatest position where [p] starts, [-1] when there is none. *)
Fixpoint lastIndexOf_from (s p : str) (i : Z) : Z :=
  match s with
  | [] => if startsWith [] p then i else -1
  | _ :: s' =>
      let r := lastIndexOf_from s' p (i + 1) in
      if r <? 0 then (if startsWith s p then i else -1) else r
  end.

Definition lastIndexOf (s p : str) : Z := lastIndexOf_from s p 0.

(** [s[i]]: [undefined] ([None]) outside [0 .. len - 1]. *)
Definition at_ (s : str) (i : Z) : option char :=
  if i <? 0 then None else s !! Z.to_nat i.

(** ECMAScript WhiteSpace and LineTerminator code units: the class [\s] of
    a regular expression and the characters removed by [trim]. *)
Definition isWhiteSpace (c : char) : bool :=
  (9 <=? c) && (c <=? 13)
  || (c =? 32) || (c =? 160) || (c =? 5760)
  || (8192 <=? c) && (c <=? 8202)
  || (c =? 8232) || (c =? 8233) || (c =? 8239) || (c =? 8287)
  || (c =? 12288) || (c =? 65279).

Fixpoint trimStart (s : str) : str :=
  match s with
  | [] => []
  | c :: s' => if isWhiteSpace c then trimStart s' else s
  end.

(** [s.trim()] *)
Definition trim (s : str) : str := rev (trimStart (rev (trimStart s))).

(** Truthiness of a string: the empty string is falsy. *)
Definition truthy (s : str) : bool :=
  match s with [] => false | _ => true end.

End Js.

Definition js : string -> Js.str := Js.of_ascii.

Definition NL : Js.str := js (String (ascii_of_nat 10) EmptyString).
Definition AT : Js.str := js "@".
Definition SPACE : Js.str := js " ".
Definition SLASH : Js.str := js "/".

(* ===================================================================== *)
(** ** Composer.tsx: trigger detection *)
(* ===================================================================== *)

Definition MIN_AT_QUERY_LENGTH : Z := 1.

Record AtQueryState := {
  query : Js.str;
  start : Z;
  end_ : Z;
}.

Definition findAtQuery (text : Js.str) (cursorIndex minLength : Z)
  : option AtQueryState :=
  if cursorIndex <? 0 then None else
  let beforeCursor := Js.slice text 0 (Some cursorIndex) in
  let lineStart := Js.lastIndexOf beforeCursor NL + 1 in
  let line := Js.slice beforeCursor lineStart None in
  let atIndex := Js.lastIndexOf line AT in
  if atIndex <? 0 then None else
  if (0 <? atIndex) &&
     match Js.at_ line (atIndex - 1) with
     | Some prevChar => negb (Js.isWhiteSpace prevChar)
     | None => false
     end
  then None else
  let afterAt := Js.slice line (atIndex + 1) None in
  if Js.includes afterAt SPACE then None else
  if Js.len afterAt <? minLength then None else
  Some {| query := afterAt; start := lineStart + atIndex; end_ := cursorIndex |}.

(** The [slashQuery] memo. *)
Definition slashQuery (text : Js.str) : option Js.str :=
  if negb (Js.startsWith text SLASH) then None else
  if Js.includes text NL then None else
  let query := Js.slice text 1 None in
  if Js.includes query SPACE then None else
  Some query.

(* ===================================================================== *)
(** ** Mention detection against its description *)
(* ===================================================================== *)

Definition newline : Js.char := 10.
Definition at_sign : Js.char := 64.
Definition space : Js.char := 32.

(** [a] is empty or ends in a white-space character: the [@] that follows
    [a] is at the line start or immediately preceded by white space. *)
Definition at_boundary (a : Js.str) : Prop :=
  a = [] \/ exists a' w, a = a' ++ [w] /\ Js.isWhiteSpace w = true.

(** [pre] is empty or ends in a newline: a line starts right after [pre]. *)
Definition line_boundary (pre : Js.str) : Prop :=
  pre = [] \/ exists p, pre = p ++ [newline].

(** The description of a mention trigger: the text before the cursor is
    [pre ++ a ++ "@" ++ afterText], where [pre] ends the previous line
    ([lineStart = len pre]), the line segment [a ++ "@" ++ afterText] has no
    newline, the [@] is the last one of the segment ([atIndex = len a]) and
    stands at a boundary, and [afterText] has no space and is long enough. *)
Definition mention_spec (text : Js.str) (cursorIndex minLength : Z)
    (r : AtQueryState) : Prop :=
  exists pre a afterText,
    take (Z.to_nat cursorIndex) text = pre ++ a ++ at_sign :: afterText /\
    line_boundary pre /\
    (newline ∉ a ++ at_sign :: afterText) /\
    (at_sign ∉ afterText) /\
    at_boundary a /\
    (space ∉ afterText) /\
    minLength <= Js.len afterText /\
    r = {| query := afterText;
           start := Js.len pre + Js.len a;
           end_ := cursorIndex |}.

(* ===================================================================== *)
(** ** Composer.tsx: props, state and derived values *)
(* ===================================================================== *)

(** [SlashItem] of [../types]: the fields the composer and the menu read. *)
Module Item.
Record t := {
  id : Js.str;
  title : Js.str;
  hint : option Js.str;
  description : option Js.str;
  insertText : Js.str;
}.
End Item.

(** [filterSlashItems] is imported from [../utils/slash]; the composer is
    parametric in it. *)
Class SlashUtils := filterSlashItems : list Item.t -> Js.str -> list Item.t.

(** [a[i]] on an array: [undefined] outside the array. *)
Definition index {A} (a : list A) (i : Z) : option A :=
  if i <? 0 then None else a !! Z.to_nat i.

(** [a.length] *)
Definition alen {A} (a : list A) : Z := Z.of_nat (length a).

(** The props the completion logic reads. *)
Record ComposerProps := {
  disabled : bool;
  isSavingAttachments : bool;
  attachments : list Js.str;
  slashItems : list Item.t;
  fileItems : list Item.t;
}.

(** The three [useState] cells. *)
Record ComposerState := {
  text : Js.str;
  completionIndex : Z;
  cursorIndex : Z;
}.

(** One render: the props it receives and the state it reads. *)
Record Render := {
  props : ComposerProps;
  state : ComposerState;
}.

Section Derived.

Context `{SlashUtils}.
Variable r : Render.

Let p := props r.
Let st := state r.

Definition canSend : bool :=
  negb (disabled p) && negb (isSavingAttachments p) &&
  (Js.truthy (Js.trim (text st)) || (0 <? alen (attachments p))).

Definition isSlashOpen : bool :=
  bool_decide (slashQuery (text st) <> None) && negb (disabled p).

Definition filteredSlashItems : list Item.t :=
  match slashQuery (text st) with
  | Some q => if negb isSlashOpen then [] else filterSlashItems (slashItems p) q
  | None => []
  end.

Definition atState : option AtQueryState :=
  if disabled p || isSlashOpen then None
  else findAtQuery (text st) (cursorIndex st) MIN_AT_QUERY_LENGTH.

(** [atState?.query ?? null] *)
Definition atQuery : option Js.str := query <$> atState.

Definition isAtOpen : bool :=
  match atQuery with Some q => Js.truthy q | None => false end
  && negb (disabled p) && negb isSlashOpen.

Definition activeItems : list Item.t :=
  if isSlashOpen then filteredSlashItems
  else if isAtOpen then fileItems p
  else [].

Definition isCompletionOpen : bool := isSlashOpen || isAtOpen.

End Derived.

(* ===================================================================== *)
(** ** Composer.tsx: handlers *)
(* ===================================================================== *)

(** [applyText(nextText, nextCursor?)]: the three state writes.  (The
    animation-frame callback only moves the DOM selection to [cursor].) *)
Definition applyText (nextText : Js.str) (nextCursor : option Z)
  : ComposerState :=
  let cursor := match nextCursor with Some c => c | None => Js.len nextText end in
  {| text := nextText; cursorIndex := cursor; completionIndex := 0 |}.

Definition setCompletionIndex (f : Z -> Z) (st : ComposerState)
  : ComposerState :=
  {| text := text st;
     completionIndex := f (completionIndex st);
     cursorIndex := cursorIndex st |}.

Definition setCursorIndex (c : Z) (st : ComposerState) : ComposerState :=
  {| text := text st; completionIndex := completionIndex st; cursorIndex := c |}.

Definition handleSelectSlashItem (item : Item.t) : ComposerState :=
  applyText (Item.insertText item) (Some (Js.len (Item.insertText item))).

Section Handlers.

Context `{SlashUtils}.
Variable r : Render.

Definition handleSelectFileItem (item : Item.t) : ComposerState :=
  match atState r with
  | None => applyText (Item.insertText item)
                      (Some (Js.len (Item.insertText item)))
  | Some at_ =>
      let before := Js.slice (text (state r)) 0 (Some (start at_)) in
      let after := Js.slice (text (state r)) (end_ at_) None in
      let nextText := before ++ Item.insertText item ++ after in
      let cursor := Js.len before + Js.len (Item.insertText item) in
      applyText nextText (Some cursor)
  end.

Definition clearAtQuery : ComposerState :=
  match atState r with
  | None => state r
  | Some at_ =>
      let before := Js.slice (text (state r)) 0 (Some (start at_)) in
      let after := Js.slice (text (state r)) (end_ at_) None in
      applyText (before ++ after) (Some (start at_))
  end.

(** [handleSend]; the [onSend] callback belongs to the parent. *)
Definition handleSend : ComposerState :=
  if negb (canSend r) then state r
  else {| text := []; completionIndex := completionIndex (state r);
          cursorIndex := 0 |}.

Definition handleSelectSkill (name : Js.str) : ComposerState :=
  let snippet := js "$" ++ name in
  let trimmed := Js.trim (text (state r)) in
  if negb (Js.truthy trimmed) then applyText (snippet ++ SPACE) None
  else if Js.includes trimmed snippet then applyText (text (state r)) None
  else applyText (Js.trim (text (state r)) ++ SPACE ++ snippet ++ SPACE) None.

Inductive Key := ArrowDown | ArrowUp | Enter | Escape | OtherKey.

(** [onKeyDown]; [None] is the [TypeError] of reading [insertText] of an
    [undefined] item. *)
Definition onKeyDown (key : Key) (metaKey : bool) : option ComposerState :=
  let st := state r in
  let n := alen (activeItems r) in
  if disabled (props r) then Some st else
  if match key with Enter => metaKey | _ => false end then Some handleSend else
  if negb (isCompletionOpen r) then Some st else
  match key with
  | ArrowDown =>
      Some (if 0 <? n
            then setCompletionIndex (fun prev => Z.rem (prev + 1) n) st
            else st)
  | ArrowUp =>
      Some (if 0 <? n
            then setCompletionIndex (fun prev => Z.rem (prev - 1 + n) n) st
            else st)
  | Enter =>
      if 0 <? n then
        match index (activeItems r) (completionIndex st) with
        | Some item =>
            Some (if isSlashOpen r then handleSelectSlashItem item
                  else handleSelectFileItem item)
        | None => None
        end
      else Some st
  | Escape =>
      Some (if isSlashOpen r then applyText [] (Some 0) else clearAtQuery)
  | OtherKey => Some st
  end.

(** [onChange] of the textarea. *)
Definition onChange (nextValue : Js.str) (selectionStart : option Z)
  : ComposerState :=
  {| text := nextValue;
     completionIndex := completionIndex (state r);
     cursorIndex := match selectionStart with
                    | Some c => c
                    | None => Js.len nextValue
                    end |}.

(** [onSelect], [onClick] and [onKeyUp] have the same body; the value of
    the controlled textarea is [text]. *)
Definition onSelect (selectionStart : option Z) : ComposerState :=
  setCursorIndex match selectionStart with
                 | Some c => c
                 | None => Js.len (text (state r))
                 end (state r).

(** The menu ([SlashMenu.tsx]) is rendered while a completion is open and
    has one button per item; [onMouseEnter] of button [i] calls
    [onHover(i)], its [onClick] calls [onSelect(item)].  An index without a
    button is no event. *)
Definition menuItems : list Item.t :=
  if isSlashOpen r then filteredSlashItems r
  else if isAtOpen r then fileItems (props r)
  else [].

Definition onMenuHover (i : nat) : ComposerState :=
  match menuItems !! i with
  | Some _ => setCompletionIndex (fun _ => Z.of_nat i) (state r)
  | None => state r
  end.

Definition onMenuClick (i : nat) : ComposerState :=
  match menuItems !! i with
  | Some item =>
      if isSlashOpen r then handleSelectSlashItem item
      else handleSelectFileItem item
  | None => state r
  end.

End Handlers.

(* ===================================================================== *)
(** ** Composer.tsx: events, effects and reachable screens *)
(* ===================================================================== *)

(** A handler runs against the render React has committed: it reads the
    props and the state of that render.  The two [useEffect] callbacks of
    lines 135-153 run after a render is committed, and only when one of
    their dependencies differs from the render before; until they have
    run, the committed render is on screen with the index its handler
    left.  React runs the effects that are still pending before it renders
    again, so the index updates they queue come after those of the
    handler. *)

Inductive Event :=
| Change (nextValue : Js.str) (selectionStart : option Z)
| Select (selectionStart : option Z)
| KeyDown (key : Key) (metaKey : bool)
| MenuHover (i : nat)
| MenuClick (i : nat)
| SkillPicked (name : Js.str)
| SendClicked
| NewProps (p : ComposerProps).

(** The effects a committed render has still to run. *)
Record Pending := {
  resetPending : bool;   (* the effect of lines 135-141 *)
  clampPending : bool;   (* the effect of lines 143-153 *)
}.

Definition noPending : Pending :=
  {| resetPending := false; clampPending := false |}.

(** What is on screen: the committed render and its pending effects. *)
Record Screen := {
  committed : Render;
  pending : Pending;
}.

(** A render whose effects have run. *)
Definition settled (r : Render) : Screen :=
  {| committed := r; pending := noPending |}.

(** The render [r] with the state [st]. *)
Definition withState (r : Render) (st : ComposerState) : Render :=
  {| props := props r; state := st |}.

(** What happens on screen: an event is handled, or the pending effects
    run. *)
Inductive Action := Handled (e : Event) | EffectsRun.

Section Step.

Context `{SlashUtils}.

(** The handler of an event: next props and next state before effects.
    The skill select (lines 551-557) calls [handleSelectSkill] for a
    non-empty value only, and is disabled with the composer. *)
Definition handle (e : Event) (r : Render) : option Render :=
  let same st := Some {| props := props r; state := st |} in
  match e with
  | Change v sel => same (onChange r v sel)
  | Select sel => same (onSelect r sel)
  | KeyDown k m =>
      match onKeyDown r k m with
      | Some st => same st
      | None => None
      end
  | MenuHover i => same (onMenuHover r i)
  | MenuClick i => same (onMenuClick r i)
  | SkillPicked name =>
      same (if disabled (props r) || negb (Js.truthy name) then state r
            else handleSelectSkill r name)
  | SendClicked => same (handleSend r)
  | NewProps p => Some {| props := p; state := state r |}
  end.

(** Dependencies of the effect of lines 135-141. *)
Definition resetDeps (r : Render) : option Js.str * bool * option Js.str :=
  (atQuery r, isCompletionOpen r, slashQuery (text (state r))).

(** Dependencies of the effect of lines 143-153. *)
Definition clampDeps (r : Render) : Z * bool :=
  (alen (activeItems r), isCompletionOpen r).

Definition resetEffect (st : ComposerState) : ComposerState :=
  setCompletionIndex (fun _ => 0) st.

Definition clampEffect (r : Render) (st : ComposerState) : ComposerState :=
  if negb (isCompletionOpen r) then st
  else setCompletionIndex
         (fun prev => if alen (activeItems r) =? 0 then 0
                      else Z.min prev (alen (activeItems r) - 1)) st.

(** The effects the render [r1] schedules when it is committed after the
    render [r0]: those with a changed dependency. *)
Definition scheduledEffects (r0 r1 : Render) : Pending :=
  {| resetPending := negb (bool_decide (resetDeps r0 = resetDeps r1));
     clampPending := negb (bool_decide (clampDeps r0 = clampDeps r1)) |}.

(** The render [r1] is committed after the render [r0]. *)
Definition commit (r0 r1 : Render) : Screen :=
  {| committed := r1; pending := scheduledEffects r0 r1 |}.

(** The pending effects of the render [r] run, in the order of the source;
    the index updates they queue are applied to the state [st]. *)
Definition applyEffects (r : Render) (p : Pending) (st : ComposerState)
  : ComposerState :=
  let st1 := if resetPending p then resetEffect st else st in
  if clampPending p then clampEffect r st1 else st1.

(** The pending effects run and the component renders again. *)
Definition flush (s : Screen) : Screen :=
  let r := committed s in
  commit r (withState r (applyEffects r (pending s) (state r))).

(** One event: the handler of the committed render runs, the effects still
    pending run, and the next render is committed.  (After a handler that
    writes nothing, what is left is the pending effects running on their
    own.) *)
Definition step (e : Event) (s : Screen) : option Screen :=
  let r := committed s in
  match handle e r with
  | Some r1 =>
      Some (commit r (withState r1 (applyEffects r (pending s) (state r1))))
  | None => None
  end.

(** The first render: initial state, both effects still to run. *)
Definition mount (p : ComposerProps) : Screen :=
  {| committed := {| props := p;
                     state := {| text := []; completionIndex := 0;
                                 cursorIndex := 0 |} |};
     pending := {| resetPending := true; clampPending := true |} |}.

Definition act (a : Action) (s : Screen) : option Screen :=
  match a with
  | Handled e => step e s
  | EffectsRun => Some (flush s)
  end.

Inductive reachable : Screen -> Prop :=
| reach_mount p : reachable (mount p)
| reach_act a s s' : reachable s -> act a s = Some s' -> reachable s'.

(** The render on screen once the effects of the commit of [r1] after [r0]
    have run. *)
Definition runEffects (r0 r1 : Render) : Render :=
  committed (flush (commit r0 r1)).

Inductive TriggerKind := Slash | Mention.

(** The active trigger of a render, with its query. *)
Definition activeTrigger (r : Render) : option (TriggerKind * Js.str) :=
  if isSlashOpen r then pair Slash <$> slashQuery (text (state r))
  else if isAtOpen r then pair Mention <$> atQuery r
  else None.

(** The highlighted index is a valid position of the candidate list,
    [0] when the list is empty. *)
Definition index_in_range (r : Render) : Prop :=
  let n := alen (activeItems r) in
  let i := completionIndex (state r) in
  (n = 0 -> i = 0) /\ (0 < n -> 0 <= i <= n - 1).

(** What every screen keeps: the index is not negative, and it is in
    range once the pending effects have run. *)
Definition index_invariant (s : Screen) : Prop :=
  0 <= completionIndex (state (committed s)) /\
  index_in_range (committed (flush s)).

End Step.

(** A stand-in for [filterSlashItems] in concrete runs: the items whose
    inserted text contains the query. *)
Definition containsFilter : SlashUtils :=
  fun items q => filter (fun it => Js.includes (Item.insertText it) q = true) items.

(** The last code unit of [s], if any, is no white space. *)
Definition endsVisibly (s : Js.str) : Prop :=
  match last s with
  | Some c => Js.isWhiteSpace c = false
  | None => True
  end.

(** The first code unit of [s], if any, is no white space. *)
Definition startsVisibly (s : Js.str) : Prop :=
  match s with
  | c :: _ => Js.isWhiteSpace c = false
  | [] => True
  end.


(* ===================================================================== *)
(** ** useFileSearch: data *)
(* ===================================================================== *)

(** [DebugEntry] of [../types].  The [id] template [`${Date.now()}-tag`]
    is kept as its two parts. *)
Module DebugEntry.
Inductive Source := client | server | error.
Inductive Payload :=
| SearchArgs (workspaceId query : Js.str) (limit : Z)
| Count (count : Z)
| Message (message : Js.str).
Record t := {
  id : Z * string;
  timestamp : Z;
  source : Source;
  label : string;
  payload : Payload;
}.
End DebugEntry.

Module FileSearch.

(** [UseFileSearchOptions].  [onDebug] is the function object the caller
    passes, named by an identity: the effect depends on it by reference
    (line 83), so a new function re-runs the effect even when it does the
    same; [None] is no callback. *)
Record Options := {
  workspaceId : option Js.str;
  query : option Js.str;
  limit : Z;
  debounceMs : Z;
  enabled : bool;
  onDebug : option nat;
}.

#[global] Instance Options_eq_dec : EqDecision Options.
Proof. solve_decision. Defined.

(** The destructuring defaults of lines 14-21. *)
Definition withDefaults (workspaceId query : option Js.str)
    (onDebug : option nat) : Options :=
  {| workspaceId := workspaceId; query := query; limit := 200;
     debounceMs := 200; enabled := true; onDebug := onDebug |}.

(** One call of [searchFiles(workspaceId, trimmed, limit)]. *)
Record Request := {
  req_workspaceId : Js.str;
  req_query : Js.str;
  req_limit : Z;
}.

(** What the timer callback captured. *)
Record Closure := {
  currentId : Z;
  args : Request;
  debug : bool;
}.

(** A pending [setTimeout] handle. *)
Record Timer := {
  due : Z;
  callback : Closure;
}.

(** What [searchFiles] resolves to, and what it may reject with. *)
Inductive Response := ArrayOf (values : list Js.str) | NotAnArray.
Inductive Thrown := ErrorObject (message : Js.str) | OtherValue (asString : Js.str).
Inductive Settled := Fulfilled (response : Response) | Rejected (reason : Thrown).

(** The hook: its two state cells, the [requestId] ref, the dependencies
    of the last effect run, the pending timer, the callbacks suspended at
    [await], and what its collaborators have received so far (the entries
    passed to [onDebug], the calls of [searchFiles]). *)
Record Hook := {
  items : list Js.str;
  isLoading : bool;
  requestId : Z;
  deps : option Options;
  timer : option Timer;
  awaiting : list Closure;
  debugLog : list DebugEntry.t;
  requests : list Request;
  clock : Z;
}.

Definition initial : Hook :=
  {| items := []; isLoading := false; requestId := 0; deps := None;
     timer := None; awaiting := []; debugLog := []; requests := [];
     clock := 0 |}.

(** What the caller of the hook sees. *)
Definition displayed (h : Hook) : list Js.str * bool := (items h, isLoading h).

Section Setters.
Variable h : Hook.

Definition setItems (v : list Js.str) : Hook :=
  {| items := v; isLoading := isLoading h; requestId := requestId h;
     deps := deps h; timer := timer h; awaiting := awaiting h;
     debugLog := debugLog h; requests := requests h; clock := clock h |}.

Definition setIsLoading (v : bool) : Hook :=
  {| items := items h; isLoading := v; requestId := requestId h;
     deps := deps h; timer := timer h; awaiting := awaiting h;
     debugLog := debugLog h; requests := requests h; clock := clock h |}.

Definition setRequestId (v : Z) : Hook :=
  {| items := items h; isLoading := isLoading h; requestId := v;
     deps := deps h; timer := timer h; awaiting := awaiting h;
     debugLog := debugLog h; requests := requests h; clock := clock h |}.

Definition setDeps (v : option Options) : Hook :=
  {| items := items h; isLoading := isLoading h; requestId := requestId h;
     deps := v; timer := timer h; awaiting := awaiting h;
     debugLog := debugLog h; requests := requests h; clock := clock h |}.

Definition setTimer (v : option Timer) : Hook :=
  {| items := items h; isLoading := isLoading h; requestId := requestId h;
     deps := deps h; timer := v; awaiting := awaiting h;
     debugLog := debugLog h; requests := requests h; clock := clock h |}.

Definition setAwaiting (v : list Closure) : Hook :=
  {| items := items h; isLoading := isLoading h; requestId := requestId h;
     deps := deps h; timer := timer h; awaiting := v;
     debugLog := debugLog h; requests := requests h; clock := clock h |}.

Definition setClock (v : Z) : Hook :=
  {| items := items h; isLoading := isLoading h; requestId := requestId h;
     deps := deps h; timer := timer h; awaiting := awaiting h;
     debugLog := debugLog h; requests := requests h; clock := v |}.

(** [onDebug?.(entry)] *)
Definition callOnDebug (supplied : bool) (entry : DebugEntry.t) : Hook :=
  if supplied then
    {| items := items h; isLoading := isLoading h; requestId := requestId h;
       deps := deps h; timer := timer h; awaiting := awaiting h;
       debugLog := debugLog h ++ [entry]; requests := requests h;
       clock := clock h |}
  else h.

(** [searchFiles(...)] is called: the request leaves. *)
Definition callSearchFiles (rq : Request) : Hook :=
  {| items := items h; isLoading := isLoading h; requestId := requestId h;
     deps := deps h; timer := timer h; awaiting := awaiting h;
     debugLog := debugLog h; requests := requests h ++ [rq];
     clock := clock h |}.

End Setters.

(* --------------------------------------------------------------------- *)
(** *** Statements with [return], [throw] and [try / catch / finally] *)
(* --------------------------------------------------------------------- *)

Inductive Completion := Normal | Return | Throw (e : Thrown).

Definition Stmt := Hook -> Hook * Completion.

Definition exec (f : Hook -> Hook) : Stmt := fun h => (f h, Normal).
Definition skip : Stmt := fun h => (h, Normal).
Definition return_ : Stmt := fun h => (h, Return).
Definition throw (e : Thrown) : Stmt := fun h => (h, Throw e).

Definition seq (s1 s2 : Stmt) : Stmt :=
  fun h => match s1 h with
           | (h1, Normal) => s2 h1
           | (h1, c) => (h1, c)
           end.

Definition when (cond : Hook -> bool) (s : Stmt) : Stmt :=
  fun h => if cond h then s h else (h, Normal).

(** [try { body } catch (e) { handler } finally { finalizer }]: the
    finalizer always runs; an abrupt completion of the finalizer replaces
    the completion of the protected blocks. *)
Definition tryCatchFinally (body : Stmt) (handler : Thrown -> Stmt)
    (finalizer : Stmt) : Stmt :=
  fun h =>
    let '(h1, c1) := match body h with
                     | (h0, Throw e) => handler e h0
                     | other => other
                     end in
    match finalizer h1 with
    | (h2, Normal) => (h2, c1)
    | (h2, c2) => (h2, c2)
    end.

Declare Scope stmt_scope.
Notation "s1 ;; s2" := (seq s1 s2) : stmt_scope.
Local Open Scope stmt_scope.

(* --------------------------------------------------------------------- *)
(** *** The effect and the timer callback *)
(* --------------------------------------------------------------------- *)

(** [!workspaceId] is true for [null] and for the empty string. *)
Definition hasWorkspace (o : Options) : option Js.str :=
  match workspaceId o with
  | Some w => if Js.truthy w then Some w else None
  | None => None
  end.

(** [query?.trim() ?? ""] *)
Definition trimmedQuery (o : Options) : Js.str :=
  match query o with Some q => Js.trim q | None => [] end.

(** Whether a callback was passed. *)
Definition supplied (onDebug : option nat) : bool :=
  match onDebug with Some _ => true | None => false end.

(** [setTimeout] takes its delay as a WebIDL [long]: an integer is reduced
    modulo 2^32 into the signed 32-bit range, and a negative delay counts
    as 0.  A delay from 2^31 up to 2^32 - 1 therefore fires at once. *)
Definition toInt32 (d : Z) : Z :=
  (d + 2147483648) mod 4294967296 - 2147483648.

Definition timerDelay (d : Z) : Z := Z.max (toInt32 d) 0.

(** The body of the effect (lines 27-80), run at time [now]. *)
Definition effect (now : Z) (o : Options) (h : Hook) : Hook :=
  let trimmed := trimmedQuery o in
  match hasWorkspace o with
  | Some w =>
      if negb (enabled o) || (Js.len trimmed <? 1) then
        setIsLoading (setItems (setRequestId h (requestId h + 1)) []) false
      else
        let currentId := requestId h + 1 in
        let h1 := setRequestId h currentId in
        setTimer h1
          (Some {| due := now + timerDelay (debounceMs o);
                   callback := {| currentId := currentId;
                                  args := {| req_workspaceId := w;
                                             req_query := trimmed;
                                             req_limit := limit o |};
                                  debug := supplied (onDebug o) |} |})
  | None =>
      setIsLoading (setItems (setRequestId h (requestId h + 1)) []) false
  end.

(** The cleanup [() => clearTimeout(handle)]. *)
Definition cleanup (h : Hook) : Hook := setTimer h None.

(** A render with options [o]: the effect is re-run, after the cleanup of
    the previous run, when a dependency changed. *)
Definition render (now : Z) (o : Options) (h : Hook) : Hook :=
  if bool_decide (deps h = Some o) then h
  else setDeps (effect now o (cleanup h)) (Some o).

(** The timer callback up to its [await] (lines 39-48). *)
Definition beforeAwait (now : Z) (c : Closure) (h : Hook) : Hook :=
  let h1 := setIsLoading h true in
  let h2 := callOnDebug h1 (debug c)
              {| DebugEntry.id := (now, "-client-file-search"%string);
                 DebugEntry.timestamp := now;
                 DebugEntry.source := DebugEntry.client;
                 DebugEntry.label := "file/search"%string;
                 DebugEntry.payload :=
                   DebugEntry.SearchArgs (req_workspaceId (args c))
                     (req_query (args c)) (req_limit (args c)) |} in
  let h3 := callSearchFiles h2 (args c) in
  setAwaiting h3 (awaiting h3 ++ [c]).

(** [response.map((value) => String(value)).filter(Boolean)], or [[]]. *)
Definition normalize (response : Response) : list Js.str :=
  match response with
  | ArrayOf values => filter (fun v => Js.truthy v = true) values
  | NotAnArray => []
  end.

Definition isStale (c : Closure) (h : Hook) : bool :=
  negb (requestId h =? currentId c).

(** The callback from the point where the awaited promise settles
    (lines 48-79). *)
Definition afterAwait (now : Z) (c : Closure) (outcome : Settled) : Stmt :=
  tryCatchFinally
    (match outcome with
     | Rejected reason => throw reason
     | Fulfilled response =>
         when (isStale c) return_ ;;
         let normalized := normalize response in
         exec (fun h => setItems h normalized) ;;
         exec (fun h => callOnDebug h (debug c)
           {| DebugEntry.id := (now, "-server-file-search"%string);
              DebugEntry.timestamp := now;
              DebugEntry.source := DebugEntry.server;
              DebugEntry.label := "file/search response"%string;
              DebugEntry.payload := DebugEntry.Count (alen normalized) |})
     end)
    (fun error =>
       when (isStale c) return_ ;;
       exec (fun h => callOnDebug h (debug c)
         {| DebugEntry.id := (now, "-client-file-search-error"%string);
            DebugEntry.timestamp := now;
            DebugEntry.source := DebugEntry.error;
            DebugEntry.label := "file/search error"%string;
            DebugEntry.payload :=
              DebugEntry.Message match error with
                                 | ErrorObject message => message
                                 | OtherValue asString => asString
                                 end |}) ;;
       exec (fun h => setItems h []))
    (when (fun h => requestId h =? currentId c)
          (exec (fun h => setIsLoading h false))).

(* --------------------------------------------------------------------- *)
(** *** Events of the hook *)
(* --------------------------------------------------------------------- *)

Inductive Event :=
| Render (now : Z) (o : Options)
| TimerFires (now : Z)
| Settles (now : Z) (id : Z) (outcome : Settled).

Definition time (e : Event) : Z :=
  match e with Render t _ | TimerFires t | Settles t _ _ => t end.

(** The suspended callback of request [id], and the others. *)
Fixpoint take_awaiting (id : Z) (l : list Closure)
  : option (Closure * list Closure) :=
  match l with
  | [] => None
  | c :: l' =>
      if currentId c =? id then Some (c, l')
      else match take_awaiting id l' with
           | Some (c', rest) => Some (c', c :: rest)
           | None => None
           end
  end.

(** One event.  [None]: the event cannot happen now (time does not go
    back, a timer fires only when due and not cleared, a promise settles
    only for a request that is out). *)
Definition step (e : Event) (h : Hook) : option Hook :=
  if time e <? clock h then None else
  let h := setClock h (time e) in
  match e with
  | Render now o => Some (render now o h)
  | TimerFires now =>
      match timer h with
      | Some t =>
          if due t <=? now
          then Some (beforeAwait now (callback t) (setTimer h None))
          else None
      | None => None
      end
  | Settles now id outcome =>
      match take_awaiting id (awaiting h) with
      | Some (c, rest) =>
          Some (fst (afterAwait now c outcome (setAwaiting h rest)))
      | None => None
      end
  end.

Fixpoint run (es : list Event) (h : Hook) : option Hook :=
  match es with
  | [] => Some h
  | e :: es' => match step e h with
                | Some h' => run es' h'
                | None => None
                end
  end.

Inductive reachable : Hook -> Prop :=
| reach_initial : reachable initial
| reach_step e h h' : reachable h -> step e h = Some h' -> reachable h'.

(* --------------------------------------------------------------------- *)
(** *** Runs of queries *)
(* --------------------------------------------------------------------- *)

(** The options [o] with another query. *)
Definition withQuery (o : Options) (q : option Js.str) : Options :=
  {| workspaceId := workspaceId o; query := q; limit := limit o;
     debounceMs := debounceMs o; enabled := enabled o; onDebug := onDebug o |}.

(** The request the effect schedules for options [o], if it schedules
    one (lines 27-33). *)
Definition scheduled (o : Options) : option Request :=
  match hasWorkspace o with
  | Some w =>
      if negb (enabled o) || (Js.len (trimmedQuery o) <? 1) then None
      else Some {| req_workspaceId := w; req_query := trimmedQuery o;
                   req_limit := limit o |}
  | None => None
  end.

(** The renders of a run, in order. *)
Fixpoint rendersOf (es : list Event) : list (Z * Options) :=
  match es with
  | [] => []
  | Render t o :: es' => (t, o) :: rendersOf es'
  | _ :: es' => rendersOf es'
  end.

(** Queries arriving after [(t0, q0)], each less than [d] after the one
    before it and different from it. *)
Fixpoint spaced (d : Z) (t0 : Z) (q0 : option Js.str)
    (rest : list (Z * option Js.str)) : Prop :=
  match rest with
  | [] => True
  | (t, q) :: rest' => t - t0 < d /\ q <> q0 /\ spaced d t q rest'
  end.

(** The last arrival of a run that starts with [(t0, q0)]. *)
Fixpoint lastArrival (t0 : Z) (q0 : option Js.str)
    (rest : list (Z * option Js.str)) : Z * option Js.str :=
  match rest with
  | [] => (t0, q0)
  | (t, q) :: rest' => lastArrival t q rest'
  end.

(** The entry reported for a failure [reason] at time [now]. *)
Definition errorEntry (now : Z) (reason : Thrown) : DebugEntry.t :=
  {| DebugEntry.id := (now, "-client-file-search-error"%string);
     DebugEntry.timestamp := now;
     DebugEntry.source := DebugEntry.error;
     DebugEntry.label := "file/search error"%string;
     DebugEntry.payload :=
       DebugEntry.Message match reason with
                          | ErrorObject message => message
                          | OtherValue asString => asString
                          end |}.

(** The request counter bounds the identifiers of everything pending. *)
Definition ids_bounded (h : Hook) : Prop :=
  (forall c, c ∈ awaiting h -> currentId c <= requestId h) /\
  (forall t, timer h = Some t -> currentId (callback t) <= requestId h).

(** A hook with workspace ["ws"], default options and one debug callback,
    asked for [q]. *)
Definition asking (q : string) : Options :=
  withDefaults (Some (js "ws")) (Some (js q)) (Some 0%nat).

(** The hook after the events [es] since it was created. *)
Definition after (es : list Event) : Hook := default initial (run es initial).

(** ["ab"] is asked for and its request leaves; ["abc"] is asked for and
    its request leaves; the response for ["abc"] arrives. *)
Definition overtaken : list Event :=
  [Render 0 (asking "ab"); TimerFires 200;
   Render 250 (asking "abc"); TimerFires 450;
   Settles 500 2 (Fulfilled (ArrayOf [js "src/abc.ts"]))].

(** The hook between two arrivals of a run: the effect last ran at [tk]
    for the options [ok]; since the run started with the requests [sent],
    either nothing has left and the timer of [ok] (if it set one) is
    pending, or that timer has fired, at its due time or later, and its
    request is the only one that has left. *)
Definition waiting (sent : list Request) (tk : Z) (ok : Options) (h : Hook)
  : Prop :=
  deps h = Some ok /\
  match scheduled ok with
  | Some rq =>
      (timer h = None /\ requests h = sent ++ [rq] /\
       tk + timerDelay (debounceMs ok) <= clock h) \/
      (requests h = sent /\
       exists t, timer h = Some t /\
                 due t = tk + timerDelay (debounceMs ok) /\
                 args (callback t) = rq)
  | None => timer h = None /\ requests h = sent
  end.

(** The renders of the options [o] with the queries of [arrivals]. *)
Definition rendersWith (o : Options) (arrivals : list (Z * option Js.str))
  : list (Z * Options) :=
  map (fun a => (fst a, withQuery o (snd a))) arrivals.

(** ["ab"] is asked for and its request leaves. *)
Definition inFlight : list Event :=
  [Render 0 (asking "ab"); TimerFires 200].

(** Three queries 50ms apart, with the default 200ms of debounce. *)
Definition typedAbc : list Event :=
  [Render 0 (asking "a"); Render 50 (asking "ab"); Render 100 (asking "abc")].

(** The same run when the last query is a single space. *)
Definition typedBlank : list Event :=
  [Render 0 (asking "a"); Render 50 (asking "ab"); Render 100 (asking " ")].

(* --------------------------------------------------------------------- *)
(** *** Invariants of the hook *)
(* --------------------------------------------------------------------- *)

(** The suspended callbacks have distinct, positive identifiers, none
    above the counter; a pending timer carries the counter itself, which
    no suspended callback has then; and no more requests have left (or
    wait on the timer) than the effect has run. *)
Definition ids_fresh (h : Hook) : Prop :=
  NoDup (currentId <$> awaiting h) /\
  (forall c, c ∈ awaiting h -> 0 < currentId c <= requestId h) /\
  (forall t, timer h = Some t ->
     currentId (callback t) = requestId h /\
     forall c, c ∈ awaiting h -> currentId c < requestId h) /\
  alen (requests h) + match timer h with Some _ => 1 | None => 0 end
  <= requestId h.

(** The loading flag is up only while the timer of the current query is
    pending or the current request is out. *)
Definition loading_backed (h : Hook) : Prop :=
  isLoading h = true ->
  (exists t, timer h = Some t) \/
  (exists c, c ∈ awaiting h /\ currentId c = requestId h).

(** Nothing is displayed, nothing is pending, and every suspended
    callback is superseded. *)
Definition quiet (sent : list Request) (h : Hook) : Prop :=
  items h = [] /\ isLoading h = false /\ timer h = None /\
  requests h = sent /\
  forall c, c ∈ awaiting h -> currentId c <> requestId h.

(** A request worth sending: a workspace, and a query that is not empty
    and has no white space at either end. *)
Definition wellFormed (rq : Request) : Prop :=
  req_workspaceId rq <> [] /\ req_query rq <> [] /\
  startsVisibly (req_query rq) /\ endsVisibly (req_query rq).

End FileSearch.

Definition slash_char : Js.char := 47.

(** [text[0:start] ++ insert ++ text[end:]]: the buffer with the span
    [[start, end)] replaced. *)
Definition splice (text : Js.str) (start end_ : Z) (insert : Js.str) : Js.str :=
  take (Z.to_nat start) text ++ insert ++ drop (Z.to_nat end_) text.

Definition with_end (c : Z) (tr : AtQueryState) : AtQueryState :=
  {| query := query tr; start := start tr; end_ := c |}.

(** An enabled composer with nothing attached and no candidates. *)
Definition plainProps : ComposerProps :=
  {| disabled := false; isSavingAttachments := false; attachments := [];
     slashItems := []; fileItems := [] |}.

(** The render in which the buffer holds [text] with the cursor at
    [cursorIndex]. *)
Definition editing (p : ComposerProps) (text : Js.str) (cursorIndex : Z)
  : Render :=
  {| props := p;
     state := {| text := text; completionIndex := 0;
                 cursorIndex := cursorIndex |} |}.

(** A candidate that inserts [insert]. *)
Definition candidate (name insert : Js.str) : Item.t :=
  {| Item.id := name; Item.title := name; Item.hint := None;
     Item.description := None; Item.insertText := insert |}.

(** [plainProps] with a catalog of commands and a list of found files. *)
Definition propsWith (slashItems fileItems : list Item.t) : ComposerProps :=
  {| disabled := false; isSavingAttachments := false; attachments := [];
     slashItems := slashItems; fileItems := fileItems |}.

(** The render [r] with another highlighted index. *)
Definition highlighting (i : Z) (r : Render) : Render :=
  {| props := props r; state := setCompletionIndex (fun _ => i) (state r) |}.

(** Where the index written by a handler comes from: it is the old one,
    or 0, or a position of the list on display. *)
Definition index_origin `{SlashUtils} (r : Render) (st : ComposerState) : Prop :=
  completionIndex st = completionIndex (state r) \/
  completionIndex st = 0 \/
  (isCompletionOpen r = true /\
   0 <= completionIndex st < alen (activeItems r)).

(** Several actions in a row. *)
Fixpoint play `{SlashUtils} (l : list Action) (s : Screen) : option Screen :=
  match l with
  | [] => Some s
  | a :: l' => match act a s with
               | Some s' => play l' s'
               | None => None
               end
  end.

(** Three files found for a mention. *)
Definition threeFiles : list Item.t :=
  [candidate (js "a.ts") (js "a.ts ");
   candidate (js "b.ts") (js "b.ts ");
   candidate (js "c.ts") (js "c.ts ")].



(* ===================================================================== *)
(** ** Editing around a mention trigger *)
(* ===================================================================== *)

(** A trigger found in a text that starts [k] code units into the buffer. *)
Definition shifted (k : Z) (tr : AtQueryState) : AtQueryState :=
  {| query := query tr; start := k + start tr; end_ := k + end_ tr |}.

(** The buffer after the code unit [ch] is typed at position [c]. *)
Definition typedAt (text : Js.str) (c : Z) (ch : Js.char) : Js.str :=
  take (Z.to_nat c) text ++ ch :: drop (Z.to_nat c) text.


(* ===================================================================== *)
(** ** SlashMenu.tsx and the menus of the composer *)
(* ===================================================================== *)

(** One [<button>] of the menu: its key, whether it carries [is-active]
    (and [aria-selected]), and the texts it shows. *)
Record MenuRow := {
  row_key : Js.str;
  row_active : bool;
  row_title : Js.str;
  row_hint : option Js.str;
  row_description : option Js.str;
}.

(** What [SlashMenu] returns: the empty placeholder or the list of rows. *)
Inductive MenuView :=
| EmptyView (label : string)
| ListView (rows : list MenuRow).

(** [value && <element>]: the element is there when the string is truthy. *)
Definition shown (v : option Js.str) : option Js.str :=
  match v with
  | Some s => if Js.truthy s then Some s else None
  | None => None
  end.

Definition SlashMenu (items : list Item.t) (selectedIndex : Z)
    (emptyLabel : string) : MenuView :=
  if alen items =? 0 then EmptyView emptyLabel
  else ListView
         (imap (fun index item =>
                  {| row_key := Item.id item;
                     row_active := Z.of_nat index =? selectedIndex;
                     row_title := Item.title item;
                     row_hint := shown (Item.hint item);
                     row_description := shown (Item.description item) |})
               items).

(** The menus in the output of the composer (lines 366-383). *)
Definition menus `{SlashUtils} (r : Render) : list MenuView :=
  (if isSlashOpen r
   then [SlashMenu (filteredSlashItems r) (completionIndex (state r))
           "No prompts found."]
   else [])
  ++
  (if isAtOpen r
   then [SlashMenu (fileItems (props r)) (completionIndex (state r))
           "No files found."]
   else []).


(* ===================================================================== *)
(** ** Facts about the string primitives *)
(* ===================================================================== *)

Section JsFacts.

Implicit Types (s p a b : Js.str) (c x : Js.char) (i n : Z).

Lemma len_nonneg s : 0 <= Js.len s.
Proof. unfold Js.len. lia. Qed.

Lemma len_app a b : Js.len (a ++ b) = Js.len a + Js.len b.
Proof. unfold Js.len. rewrite length_app. lia. Qed.

Lemma len_cons x s : Js.len (x :: s) = 1 + Js.len s.
Proof. unfold Js.len. simpl. lia. Qed.

Lemma len_nil : Js.len [] = 0.
Proof. reflexivity. Qed.

Lemma rel_nonneg n i : 0 <= i -> Js.rel n i = Z.min i n.
Proof. intros Hi. unfold Js.rel. destruct (i <? 0) eqn:E; [lia | reflexivity]. Qed.

(** [s.slice(0, e)] with [0 <= e] is the prefix of [e] code units. *)
Lemma slice_prefix s e : 0 <= e -> Js.slice s 0 (Some e) = take (Z.to_nat e) s.
Proof.
  intros He. unfold Js.slice.
  pose proof (len_nonneg s) as Hn.
  rewrite !rel_nonneg by lia.
  rewrite (Z.min_l 0) by lia. change (Z.to_nat 0) with 0%nat. rewrite drop_0.
  destruct (Z.le_gt_cases e (Js.len s)) as [Hle|Hgt].
  - f_equal. lia.
  - replace (Z.max (Z.min e (Js.len s) - 0) 0) with (Js.len s) by lia.
    unfold Js.len in *. rewrite Nat2Z.id.
    rewrite firstn_all. symmetry. apply take_ge. lia.
Qed.

(** [s.slice(k)] with [0 <= k] is the suffix from position [k]. *)
Lemma slice_suffix s k : 0 <= k -> Js.slice s k None = drop (Z.to_nat k) s.
Proof.
  intros Hk. unfold Js.slice.
  rewrite rel_nonneg by lia.
  rewrite take_ge by (rewrite length_drop; unfold Js.len; lia).
  destruct (Z.le_gt_cases k (Js.len s)) as [Hle|Hgt].
  - rewrite Z.min_l by lia. reflexivity.
  - unfold Js.len in *. rewrite !drop_ge by lia. reflexivity.
Qed.

Lemma startsWith_char s c :
  Js.startsWith s [c] = true <-> exists s', s = c :: s'.
Proof.
  destruct s as [|x s']; simpl.
  - split; [discriminate | intros [? ?]; discriminate].
  - rewrite andb_true_r, Z.eqb_eq. split.
    + intros ->. eauto.
    + intros [? [= -> _]]. reflexivity.
Qed.

Lemma includes_char s c : Js.includes s [c] = true <-> c ∈ s.
Proof.
  induction s as [|x s IH]; simpl.
  - split; [discriminate | intros H; inversion H].
  - rewrite andb_true_r, orb_true_iff, Z.eqb_eq, IH, elem_of_cons.
    split; (intros [H|H]; [left; congruence | right; exact H]).
Qed.

Lemma includes_char_false s c : Js.includes s [c] = false <-> c ∉ s.
Proof.
  rewrite <- includes_char. destruct (Js.includes s [c]); split; congruence.
Qed.

Lemma lastIndexOf_from_absent s c i :
  c ∉ s -> Js.lastIndexOf_from s [c] i = -1.
Proof.
  revert i. induction s as [|x s IH]; intros i Hc; simpl; [reflexivity|].
  apply not_elem_of_cons in Hc as [Hx Hs].
  rewrite (IH (i + 1) Hs). simpl.
  destruct (x =? c) eqn:E; [apply Z.eqb_eq in E; congruence | reflexivity].
Qed.

Lemma lastIndexOf_from_last a b c i :
  0 <= i -> c ∉ b ->
  Js.lastIndexOf_from (a ++ c :: b) [c] i = i + Js.len a.
Proof.
  revert i. induction a as [|x a IH]; intros i Hi Hb.
  - simpl. rewrite (lastIndexOf_from_absent b c (i + 1) Hb). simpl.
    rewrite Z.eqb_refl. simpl. rewrite len_nil. lia.
  - change ((x :: a) ++ c :: b) with (x :: (a ++ c :: b)).
    cbn [Js.lastIndexOf_from]. rewrite IH by (lia || assumption).
    pose proof (len_nonneg a).
    destruct (i + 1 + Js.len a <? 0) eqn:E; [lia|].
    rewrite len_cons. lia.
Qed.

Lemma lastIndexOf_last a b c :
  c ∉ b -> Js.lastIndexOf (a ++ c :: b) [c] = Js.len a.
Proof.
  intros Hb. unfold Js.lastIndexOf.
  rewrite lastIndexOf_from_last by (lia || assumption). lia.
Qed.

Lemma lastIndexOf_absent s c : c ∉ s -> Js.lastIndexOf s [c] = -1.
Proof. apply lastIndexOf_from_absent. Qed.

(** The two outcomes of [lastIndexOf] for a one-unit search string. *)
Lemma lastIndexOf_char s c :
  ((c ∉ s) /\ Js.lastIndexOf s [c] = -1) \/
  (exists a b, s = a ++ c :: b /\ (c ∉ b) /\ Js.lastIndexOf s [c] = Js.len a).
Proof.
  induction s as [|x s IH].
  - left. split; [apply not_elem_of_nil | reflexivity].
  - destruct IH as [[Hs _]|(a & b & -> & Hb & _)].
    + destruct (decide (x = c)) as [->|Hx].
      * right. exists [], s. split; [reflexivity|]. split; [exact Hs|].
        apply (lastIndexOf_last [] s c Hs).
      * assert (c ∉ x :: s) as Hxs
          by (apply not_elem_of_cons; split; [congruence | exact Hs]).
        left. split; [exact Hxs | apply lastIndexOf_absent, Hxs].
    + right. exists (x :: a), b. split; [reflexivity|]. split; [exact Hb|].
      apply (lastIndexOf_last (x :: a) b c Hb).
Qed.

Lemma at_app_last a x b : Js.at_ (a ++ x :: b) (Js.len a) = Some x.
Proof.
  unfold Js.at_, Js.len.
  destruct (Z.ltb_spec (Z.of_nat (length a)) 0); [lia|].
  rewrite Nat2Z.id. apply list_lookup_middle. reflexivity.
Qed.

Lemma drop_len_app_nil s : drop (Z.to_nat (Js.len s)) s = [].
Proof. unfold Js.len. rewrite Nat2Z.id. apply drop_all. Qed.

Lemma drop_len_app a b : drop (Z.to_nat (Js.len a)) (a ++ b) = b.
Proof. unfold Js.len. rewrite Nat2Z.id. apply drop_app_length. Qed.

Lemma take_len_app a b : take (Z.to_nat (Js.len a)) (a ++ b) = a.
Proof. unfold Js.len. rewrite Nat2Z.id. apply take_app_length. Qed.

End JsFacts.

(* ===================================================================== *)
(** ** Facts about mention detection *)
(* ===================================================================== *)

Section MentionFacts.

Implicit Types (text pre line a after : Js.str).

(** Where the line of the cursor starts. *)
Lemma line_split bc :
  exists pre line,
    bc = pre ++ line /\ line_boundary pre /\ (newline ∉ line) /\
    Js.lastIndexOf bc NL + 1 = Js.len pre.
Proof.
  change NL with [newline].
  destruct (lastIndexOf_char bc newline) as [[Hno E]|(p & line & -> & Hl & E)].
  - exists [], bc. rewrite E. repeat split; try assumption.
    left. reflexivity.
  - exists (p ++ [newline]), line. rewrite E, <- app_assoc, len_app.
    repeat split; try assumption.
    right. exists p. reflexivity.
Qed.

Lemma line_start pre line :
  line_boundary pre -> newline ∉ line ->
  Js.lastIndexOf (pre ++ line) NL + 1 = Js.len pre.
Proof.
  change NL with [newline]. intros [->|[p ->]] Hl.
  - rewrite app_nil_l, lastIndexOf_absent by assumption. reflexivity.
  - rewrite <- app_assoc. simpl.
    rewrite lastIndexOf_last, len_app by assumption. reflexivity.
Qed.

Lemma slice_line pre line :
  Js.slice (pre ++ line) (Js.len pre) None = line.
Proof.
  rewrite slice_suffix by apply len_nonneg. apply drop_len_app.
Qed.

(** The character before position [len a] of [a ++ ...], when there is one. *)
Lemma prev_char a x rest :
  (0 <? Js.len a) = true ->
  exists a' w, a = a' ++ [w] /\
    Js.at_ (a ++ x :: rest) (Js.len a - 1) = Some w.
Proof.
  intros Hpos. destruct (exists_last (l := a)) as (a' & w & ->).
  - intros ->. discriminate.
  - exists a', w. split; [reflexivity|].
    rewrite len_app, <- app_assoc.
    replace (Js.len a' + Js.len [w] - 1) with (Js.len a')
      by (rewrite len_cons, len_nil; lia).
    apply at_app_last.
Qed.

(** The test of lines 30-35 of Composer.tsx decides [at_boundary]. *)
Lemma boundary_check a x rest :
  (0 <? Js.len a) &&
  match Js.at_ (a ++ x :: rest) (Js.len a - 1) with
  | Some prevChar => negb (Js.isWhiteSpace prevChar)
  | None => false
  end = false
  <-> at_boundary a.
Proof.
  unfold at_boundary. destruct (0 <? Js.len a) eqn:Hpos.
  - destruct (prev_char a x rest Hpos) as (a' & w & -> & ->).
    simpl. rewrite negb_false_iff. split.
    + intros Hw. right. exists a', w. split; [reflexivity | exact Hw].
    + intros [H0|(a2 & w2 & Heq & Hw)].
      * destruct a'; discriminate.
      * apply app_inj_tail in Heq as [_ ->]. exact Hw.
  - simpl. split; [|reflexivity]. intros _. left.
    destruct a; [reflexivity|]. rewrite len_cons in Hpos.
    pose proof (len_nonneg a). apply Z.ltb_ge in Hpos. lia.
Qed.

(** [findAtQuery] once the text before the cursor is split at the line
    start and at the last [@] of the line. *)
Lemma findAtQuery_at text c m pre a after :
  take (Z.to_nat c) text = pre ++ a ++ at_sign :: after ->
  line_boundary pre ->
  newline ∉ a ++ at_sign :: after ->
  at_sign ∉ after ->
  findAtQuery text c m =
    if (0 <? Js.len a) &&
       match Js.at_ (a ++ at_sign :: after) (Js.len a - 1) with
       | Some prevChar => negb (Js.isWhiteSpace prevChar)
       | None => false
       end
    then None else
    if Js.includes after SPACE then None else
    if Js.len after <? m then None else
    Some {| query := after; start := Js.len pre + Js.len a; end_ := c |}.
Proof.
  intros Htake Hpre Hnl Hat.
  assert (0 <= c) as Hc.
  { destruct (Z.le_gt_cases 0 c) as [|Hneg]; [assumption|].
    rewrite Z2Nat.nonpos in Htake by lia. simpl in Htake.
    destruct pre, a; discriminate. }
  unfold findAtQuery.
  destruct (Z.ltb_spec c 0); [lia|].
  rewrite slice_prefix, Htake by assumption.
  rewrite line_start by assumption.
  rewrite slice_line.
  change AT with [at_sign].
  rewrite lastIndexOf_last by assumption.
  pose proof (len_nonneg a).
  destruct (Z.ltb_spec (Js.len a) 0); [lia|].
  rewrite slice_suffix by lia.
  assert (drop (Z.to_nat (Js.len a + 1)) (a ++ at_sign :: after) = after) as ->.
  { replace (Js.len a + 1) with (Js.len (a ++ [at_sign]))
      by (rewrite len_app, len_cons, len_nil; lia).
    rewrite (cons_middle at_sign a after), app_assoc. apply drop_len_app. }
  reflexivity.
Qed.

(** No [@] on the cursor's line: no trigger. *)
Lemma findAtQuery_no_at text c m pre line :
  take (Z.to_nat c) text = pre ++ line ->
  line_boundary pre -> newline ∉ line -> at_sign ∉ line ->
  findAtQuery text c m = None.
Proof.
  intros Htake Hpre Hnl Hat. unfold findAtQuery.
  destruct (Z.ltb_spec c 0); [reflexivity|].
  rewrite slice_prefix, Htake by assumption.
  rewrite line_start by assumption.
  rewrite slice_line.
  change AT with [at_sign].
  rewrite lastIndexOf_absent by assumption. reflexivity.
Qed.

(** The text before the cursor always splits in one of the two ways. *)
Lemma cursor_line_cases text c :
  (exists pre line,
     take (Z.to_nat c) text = pre ++ line /\ line_boundary pre /\
     (newline ∉ line) /\ (at_sign ∉ line)) \/
  (exists pre a after,
     take (Z.to_nat c) text = pre ++ a ++ at_sign :: after /\
     line_boundary pre /\ (newline ∉ a ++ at_sign :: after) /\
     (at_sign ∉ after)).
Proof.
  destruct (line_split (take (Z.to_nat c) text))
    as (pre & line & Hbc & Hpre & Hnl & _).
  destruct (lastIndexOf_char line at_sign) as [[Hno _]|(a & after & -> & Ha & _)].
  - left. exists pre, line. auto.
  - right. exists pre, a, after. auto.
Qed.

(** [findAtQuery] returns exactly the triggers of the description. *)
Lemma findAtQuery_spec text c m tr :
  findAtQuery text c m = Some tr <-> mention_spec text c m tr.
Proof.
  split.
  - intros Hf.
    destruct (cursor_line_cases text c)
      as [(pre & line & Ht & Hp & Hn & Ha)|(pre & a & after & Ht & Hp & Hn & Ha)].
    + rewrite (findAtQuery_no_at _ _ _ _ _ Ht Hp Hn Ha) in Hf. discriminate.
    + rewrite (findAtQuery_at _ _ _ _ _ _ Ht Hp Hn Ha) in Hf.
      destruct (_ && _) eqn:Hb in Hf; [discriminate|].
      destruct (Js.includes after SPACE) eqn:Hs in Hf; [discriminate|].
      destruct (Z.ltb_spec (Js.len after) m) as [|Hm] in Hf; [discriminate|].
      injection Hf as <-.
      exists pre, a, after. repeat split; try assumption.
      * apply (boundary_check a at_sign after), Hb.
      * apply includes_char_false, Hs.
  - intros (pre & a & after & Ht & Hp & Hn & Ha & Hb & Hs & Hm & ->).
    rewrite (findAtQuery_at _ _ _ _ _ _ Ht Hp Hn Ha).
    apply (boundary_check a at_sign after) in Hb. rewrite Hb.
    apply includes_char_false in Hs. change [space] with SPACE in Hs.
    rewrite Hs.
    destruct (Z.ltb_spec (Js.len after) m); [lia | reflexivity].
Qed.

(** Shape of a detected trigger. *)
Lemma findAtQuery_span text c m tr :
  findAtQuery text c m = Some tr ->
  0 <= start tr /\
  start tr + 1 + Js.len (query tr) = Z.min c (Js.len text) /\
  end_ tr = c.
Proof.
  intros (pre & a & after & Ht & _ & _ & _ & _ & _ & _ & ->)%findAtQuery_spec.
  simpl. apply (f_equal Js.len) in Ht.
  rewrite !len_app, len_cons in Ht.
  pose proof (len_nonneg pre). pose proof (len_nonneg a).
  pose proof (len_nonneg after).
  unfold Js.len in *. rewrite length_take in Ht. lia.
Qed.

End MentionFacts.

(* ===================================================================== *)
(** ** Trigger detection: the claims *)
(* ===================================================================== *)

Section TriggerClaims.

Implicit Types (text q : Js.str) (r : Render).

Lemma slashQuery_spec text q :
  slashQuery text = Some q <->
  text = slash_char :: q /\ (newline ∉ text) /\ (space ∉ q).
Proof.
  unfold slashQuery. change SLASH with [slash_char].
  change NL with [newline]. change SPACE with [space].
  destruct (Js.startsWith text [slash_char]) eqn:Hs; simpl.
  - apply startsWith_char in Hs as [s' ->].
    rewrite slice_suffix by lia. change (Z.to_nat 1) with 1%nat. simpl drop.
    rewrite drop_0.
    destruct (Js.includes (slash_char :: s') [newline]) eqn:Hn.
    { apply includes_char in Hn. split; [discriminate|]. intros (_ & Hno & _).
      contradiction. }
    apply includes_char_false in Hn.
    destruct (Js.includes s' [space]) eqn:Hsp.
    { apply includes_char in Hsp. split; [discriminate|].
      intros ([= ->] & _ & Hno). contradiction. }
    apply includes_char_false in Hsp. split.
    + intros [= ->]. auto.
    + intros ([= ->] & _ & _). reflexivity.
  - split; [discriminate|]. intros (-> & _ & _).
    apply not_true_iff_false in Hs. exfalso. apply Hs, startsWith_char. eauto.
Qed.

Lemma findAtQuery_negative text c m : c < 0 -> findAtQuery text c m = None.
Proof.
  intros Hc. unfold findAtQuery.
  destruct (Z.ltb_spec c 0); [reflexivity | lia].
Qed.

Lemma findAtQuery_past_end text c m :
  Js.len text <= c ->
  findAtQuery text c m = with_end c <$> findAtQuery text (Js.len text) m.
Proof.
  intros Hc. pose proof (len_nonneg text) as Hn. unfold findAtQuery.
  destruct (Z.ltb_spec c 0); [lia|].
  destruct (Z.ltb_spec (Js.len text) 0); [lia|].
  rewrite !slice_prefix by lia.
  rewrite !take_ge by (unfold Js.len in *; lia).
  repeat case_match; reflexivity.
Qed.

(** C3: with no slash trigger active, mention detection returns a trigger
    exactly when the text before the cursor, from the start of the cursor's
    line, contains an [@] whose last occurrence is at the line start or
    right after a white-space character, followed up to the cursor by a
    text without space of at least the minimum length; the trigger then has
    that text as query, starts at the [@] and ends at the cursor.  In every
    other case the result is null.  [detect("hello @wor", 10)] and
    [detect("hello @wor ld", 10)] give [{query: "wor", start: 6, end: 10}],
    [detect("hello@wor", 9)] gives null. *)
Theorem mention_detection_correct :
  (forall text cursorIndex minLength tr,
     findAtQuery text cursorIndex minLength = Some tr <->
     mention_spec text cursorIndex minLength tr) /\
  (forall text cursorIndex minLength,
     findAtQuery text cursorIndex minLength = None <->
     ~ exists tr, mention_spec text cursorIndex minLength tr) /\
  (forall r tr,
     atState r = Some tr <->
     disabled (props r) = false /\ isSlashOpen r = false /\
     mention_spec (text (state r)) (cursorIndex (state r))
       MIN_AT_QUERY_LENGTH tr) /\
  atState (editing plainProps (js "hello @wor") 10)
    = Some {| query := js "wor"; start := 6; end_ := 10 |} /\
  atState (editing plainProps (js "hello @wor ld") 10)
    = Some {| query := js "wor"; start := 6; end_ := 10 |} /\
  atState (editing plainProps (js "hello@wor") 9) = None.
Proof.
  split; [exact findAtQuery_spec|].
  split.
  { intros text c m. split.
    - intros Hf [tr Htr%findAtQuery_spec]. congruence.
    - intros Hno. destruct (findAtQuery text c m) as [tr|] eqn:Hf;
        [|reflexivity].
      exfalso. apply Hno. exists tr. apply findAtQuery_spec, Hf. }
  split.
  { intros r tr. unfold atState.
    destruct (disabled (props r)); simpl.
    { split; [discriminate | intros [? _]; discriminate]. }
    destruct (isSlashOpen r).
    { split; [discriminate | intros (_ & ? & _); discriminate]. }
    rewrite findAtQuery_spec. tauto. }
  repeat split; reflexivity.
Qed.

Lemma mention_detection_correct_witness :
  mention_spec (js "hello @wor") 10 1
    {| query := js "wor"; start := 6; end_ := 10 |}.
Proof.
  apply (proj1 (proj1 mention_detection_correct (js "hello @wor") 10 1
                  {| query := js "wor"; start := 6; end_ := 10 |})).
  reflexivity.
Defined.

(** C4: the slash trigger is active exactly when the text starts with [/],
    has no newline, and has no space after the [/]; its query is the text
    after the [/] and what it spans is the whole buffer.  A space anywhere
    after the slash gives null; [detect("/foo", 4)] has query ["foo"]. *)
Theorem slash_detection_correct :
  (forall text q,
     slashQuery text = Some q <->
     text = slash_char :: q /\ (newline ∉ text) /\ (space ∉ q)) /\
  (forall text,
     slashQuery text = None <->
     ~ exists q, text = slash_char :: q /\ (newline ∉ text) /\ (space ∉ q)) /\
  (forall r,
     isSlashOpen r = true <->
     disabled (props r) = false /\
     exists q, text (state r) = slash_char :: q /\
               (newline ∉ text (state r)) /\ (space ∉ q)) /\
  (forall q, space ∈ q -> slashQuery (slash_char :: q) = None) /\
  (forall r item,
     text (handleSelectSlashItem item)
     = splice (text (state r)) 0 (Js.len (text (state r)))
         (Item.insertText item)) /\
  slashQuery (js "/foo") = Some (js "foo") /\
  slashQuery (js "/foo bar") = None.
Proof.
  split; [exact slashQuery_spec|].
  split.
  { intros text. split.
    - intros Hs [q Hq%slashQuery_spec]. congruence.
    - intros Hno. destruct (slashQuery text) as [q|] eqn:Hs; [|reflexivity].
      exfalso. apply Hno. exists q. apply slashQuery_spec, Hs. }
  split.
  { intros r. unfold isSlashOpen.
    rewrite andb_true_iff, negb_true_iff, bool_decide_eq_true. split.
    - intros [Hq Hd]. split; [exact Hd|].
      destruct (slashQuery (text (state r))) as [q|] eqn:Hs; [|congruence].
      exists q. apply slashQuery_spec, Hs.
    - intros [Hd [q Hq%slashQuery_spec]]. split; [congruence | exact Hd]. }
  split.
  { intros q Hq. destruct (slashQuery (slash_char :: q)) as [q'|] eqn:Hs;
      [|reflexivity].
    apply slashQuery_spec in Hs as ([= <-] & _ & Hno). contradiction. }
  split.
  { intros r item. unfold splice, handleSelectSlashItem. simpl.
    rewrite drop_len_app_nil. rewrite app_nil_r. reflexivity. }
  split; reflexivity.
Qed.

Lemma slash_detection_correct_witness :
  slashQuery (js "/foo bar") = None.
Proof.
  apply (proj1 (proj2 (proj2 (proj2 slash_detection_correct))) (js "foo bar")).
  apply includes_char. reflexivity.
Defined.

(** C10: for a negative cursor index [findAtQuery] returns null whatever
    the text; it is defined on every text and cursor index: a cursor past
    the end of the text is treated as a cursor at the end (only the
    reported end keeps the index given), and every trigger returned lies
    inside the text before the cursor. *)
Theorem findAtQuery_any_cursor :
  (forall text cursorIndex minLength,
     cursorIndex < 0 -> findAtQuery text cursorIndex minLength = None) /\
  (forall text cursorIndex minLength,
     Js.len text <= cursorIndex ->
     findAtQuery text cursorIndex minLength
     = with_end cursorIndex <$> findAtQuery text (Js.len text) minLength) /\
  (forall text cursorIndex minLength tr,
     findAtQuery text cursorIndex minLength = Some tr ->
     0 <= start tr /\
     start tr + 1 + Js.len (query tr) = Z.min cursorIndex (Js.len text) /\
     end_ tr = cursorIndex).
Proof.
  split; [exact findAtQuery_negative|].
  split; [exact findAtQuery_past_end | exact findAtQuery_span].
Qed.

Lemma findAtQuery_any_cursor_witness :
  findAtQuery (js "@ab") (-1) 1 = None /\
  findAtQuery (js "@ab") 10 1
  = Some {| query := js "ab"; start := 0; end_ := 10 |}.
Proof.
  split.
  - apply (proj1 findAtQuery_any_cursor). lia.
  - rewrite (proj1 (proj2 findAtQuery_any_cursor)) by (vm_compute; discriminate).
    reflexivity.
Defined.

End TriggerClaims.

(* ===================================================================== *)
(** ** Applying and dismissing a completion, moving the highlight *)
(* ===================================================================== *)

Section ControllerClaims.

Context `{SlashUtils}.

Implicit Types (r : Render) (item : Item.t) (tr : AtQueryState).

Lemma isSlashOpen_enabled r : isSlashOpen r = true -> disabled (props r) = false.
Proof.
  unfold isSlashOpen. rewrite andb_true_iff, negb_true_iff. tauto.
Qed.

Lemma isAtOpen_inv r :
  isAtOpen r = true ->
  disabled (props r) = false /\ isSlashOpen r = false /\
  exists tr, atState r = Some tr.
Proof.
  unfold isAtOpen, atQuery.
  rewrite !andb_true_iff, !negb_true_iff. intros [[Hq Hd] Hs].
  repeat split; try assumption.
  destruct (atState r) as [tr|]; [eauto | discriminate].
Qed.

Lemma isSlashOpen_completion r : isSlashOpen r = true -> isCompletionOpen r = true.
Proof. unfold isCompletionOpen. intros ->. reflexivity. Qed.

Lemma isAtOpen_completion r : isAtOpen r = true -> isCompletionOpen r = true.
Proof. unfold isCompletionOpen. intros ->. apply orb_true_r. Qed.

Lemma isCompletionOpen_enabled r :
  isCompletionOpen r = true -> disabled (props r) = false.
Proof.
  unfold isCompletionOpen. intros [Hs|Ha]%orb_true_iff.
  - apply isSlashOpen_enabled, Hs.
  - apply isAtOpen_inv, Ha.
Qed.

Lemma index_Some_alen {A} (l : list A) i x : index l i = Some x -> 0 < alen l.
Proof.
  unfold index, alen. destruct (Z.ltb_spec i 0); [discriminate|].
  intros Hl%lookup_lt_Some. lia.
Qed.

(** The span of an open mention trigger lies in the buffer. *)
Lemma atState_span r tr :
  atState r = Some tr ->
  0 <= start tr <= Js.len (text (state r)) /\ 0 <= end_ tr.
Proof.
  unfold atState. destruct (_ || _); [discriminate|].
  intros (H0 & Hlen & Hend)%findAtQuery_span.
  pose proof (len_nonneg (query tr)). lia.
Qed.

Lemma span_slices r tr :
  atState r = Some tr ->
  Js.slice (text (state r)) 0 (Some (start tr))
    = take (Z.to_nat (start tr)) (text (state r)) /\
  Js.slice (text (state r)) (end_ tr) None
    = drop (Z.to_nat (end_ tr)) (text (state r)) /\
  Js.len (take (Z.to_nat (start tr)) (text (state r))) = start tr.
Proof.
  intros [[H0 Hs] He]%atState_span.
  rewrite slice_prefix, slice_suffix by lia. repeat split.
  unfold Js.len in *. rewrite length_take. lia.
Qed.

Lemma handleSelectFileItem_span r tr item :
  atState r = Some tr ->
  handleSelectFileItem r item
  = {| text := splice (text (state r)) (start tr) (end_ tr)
                 (Item.insertText item);
       completionIndex := 0;
       cursorIndex := start tr + Js.len (Item.insertText item) |}.
Proof.
  intros Hat. unfold handleSelectFileItem. rewrite Hat.
  destruct (span_slices r tr Hat) as (-> & -> & Hlen).
  unfold applyText, splice. rewrite Hlen. reflexivity.
Qed.

Lemma clearAtQuery_span r tr :
  atState r = Some tr ->
  clearAtQuery r
  = {| text := take (Z.to_nat (start tr)) (text (state r))
               ++ drop (Z.to_nat (end_ tr)) (text (state r));
       completionIndex := 0;
       cursorIndex := start tr |}.
Proof.
  intros Hat. unfold clearAtQuery. rewrite Hat.
  destruct (span_slices r tr Hat) as (-> & -> & _). reflexivity.
Qed.

(** C5: applying a candidate to an open trigger with span [[start, end)]
    gives the buffer [text[0:start] ++ insertText ++ text[end:]] with the
    cursor at [start + insertText.length]; without a known span the buffer
    becomes [insertText] with the cursor at its end.  Applying ["$deploy "]
    to the span [[6, 10)] of ["hello @wor rest"] gives
    ["hello $deploy  rest"] with the cursor at [6 + len("$deploy ")];
    confirming the candidate ["/review "] on the buffer ["/rev"] (the
    catalog filter keeping it for the query ["rev"]) gives ["/review "]
    with the cursor at its end. *)
Theorem apply_candidate_correct :
  (forall r tr item,
     atState r = Some tr ->
     handleSelectFileItem r item
     = {| text := splice (text (state r)) (start tr) (end_ tr)
                    (Item.insertText item);
          completionIndex := 0;
          cursorIndex := start tr + Js.len (Item.insertText item) |}) /\
  (forall r item,
     atState r = None ->
     handleSelectFileItem r item
     = {| text := Item.insertText item;
          completionIndex := 0;
          cursorIndex := Js.len (Item.insertText item) |}) /\
  (forall item,
     handleSelectSlashItem item
     = {| text := Item.insertText item;
          completionIndex := 0;
          cursorIndex := Js.len (Item.insertText item) |}) /\
  (forall r item,
     isCompletionOpen r = true ->
     index (activeItems r) (completionIndex (state r)) = Some item ->
     onKeyDown r Enter false
     = Some (if isSlashOpen r then handleSelectSlashItem item
             else handleSelectFileItem r item)) /\
  handleSelectFileItem (editing plainProps (js "hello @wor rest") 10)
    (candidate (js "deploy") (js "$deploy "))
  = {| text := js "hello $deploy  rest";
       completionIndex := 0;
       cursorIndex := 6 + Js.len (js "$deploy ") |} /\
  (filterSlashItems [candidate (js "review") (js "/review ")] (js "rev")
   = [candidate (js "review") (js "/review ")] ->
   onKeyDown
     (editing (propsWith [candidate (js "review") (js "/review ")] [])
        (js "/rev") 4)
     Enter false
   = Some {| text := js "/review ";
             completionIndex := 0;
             cursorIndex := Js.len (js "/review ") |}).
Proof.
  split; [exact handleSelectFileItem_span|].
  split.
  { intros r item Hat. unfold handleSelectFileItem. rewrite Hat. reflexivity. }
  split; [reflexivity|].
  split.
  { intros r item Hopen Hitem. unfold onKeyDown.
    rewrite (isCompletionOpen_enabled r Hopen), Hopen. simpl.
    destruct (Z.ltb_spec 0 (alen (activeItems r))) as [_|Hn].
    - rewrite Hitem. reflexivity.
    - apply index_Some_alen in Hitem. lia. }
  split; [reflexivity|].
  intros Hkept. unfold onKeyDown, activeItems, filteredSlashItems.
  change (isSlashOpen (editing _ (js "/rev") 4)) with true.
  change (slashQuery (text (state (editing _ (js "/rev") 4))))
    with (Some (js "rev")).
  cbn [negb props state editing propsWith slashItems disabled isCompletionOpen
       orb completionIndex].
  change (isCompletionOpen (editing _ (js "/rev") 4)) with true.
  cbn [negb]. rewrite Hkept. reflexivity.
Qed.

(** C6: dismissing a slash trigger empties the buffer and puts the cursor
    at 0; dismissing a mention trigger removes exactly its span
    [[start, end)], keeps the rest of the buffer, and puts the cursor at
    the former start.  Dismissing the mention trigger of ["fix @bu"] gives
    ["fix "] with the cursor at 4. *)
Theorem dismiss_correct :
  (forall r metaKey,
     isSlashOpen r = true ->
     onKeyDown r Escape metaKey
     = Some {| text := []; completionIndex := 0; cursorIndex := 0 |}) /\
  (forall r metaKey,
     isAtOpen r = true ->
     exists tr,
       atState r = Some tr /\
       onKeyDown r Escape metaKey
       = Some {| text := take (Z.to_nat (start tr)) (text (state r))
                         ++ drop (Z.to_nat (end_ tr)) (text (state r));
                 completionIndex := 0;
                 cursorIndex := start tr |}) /\
  onKeyDown (editing plainProps (js "fix @bu") 7) Escape false
  = Some {| text := js "fix "; completionIndex := 0; cursorIndex := 4 |}.
Proof.
  split.
  { intros r m Hs. unfold onKeyDown.
    rewrite (isSlashOpen_enabled r Hs), (isSlashOpen_completion r Hs), Hs.
    reflexivity. }
  split; [|reflexivity].
  intros r m Ha. destruct (isAtOpen_inv r Ha) as (Hd & Hs & tr & Hat).
  exists tr. split; [exact Hat|]. unfold onKeyDown.
  rewrite Hd, (isAtOpen_completion r Ha), Hs. simpl.
  rewrite (clearAtQuery_span r tr Hat). reflexivity.
Qed.

(** C9: while the menu is open with [n] candidates and highlighted index
    [i], next gives [(i + 1) mod n] and previous gives [(i - 1 + n) mod n]
    when [n > 0]; both leave the state as it is when [n = 0].  With three
    candidates, next of 2 is 0 and previous of 0 is 2. *)
Theorem highlight_wraps :
  (forall r metaKey,
     isCompletionOpen r = true ->
     0 < alen (activeItems r) ->
     0 <= completionIndex (state r) ->
     onKeyDown r ArrowDown metaKey
     = Some (setCompletionIndex
               (fun i => (i + 1) mod alen (activeItems r)) (state r)) /\
     onKeyDown r ArrowUp metaKey
     = Some (setCompletionIndex
               (fun i => (i - 1 + alen (activeItems r))
                         mod alen (activeItems r)) (state r))) /\
  (forall r metaKey,
     isCompletionOpen r = true ->
     alen (activeItems r) = 0 ->
     onKeyDown r ArrowDown metaKey = Some (state r) /\
     onKeyDown r ArrowUp metaKey = Some (state r)) /\
  (completionIndex <$>
     onKeyDown (highlighting 2 (editing (propsWith [] threeFiles) (js "@ts") 3))
       ArrowDown false) = Some 0 /\
  (completionIndex <$>
     onKeyDown (highlighting 0 (editing (propsWith [] threeFiles) (js "@ts") 3))
       ArrowUp false) = Some 2.
Proof.
  split.
  { intros r m Hopen Hn Hi. unfold onKeyDown.
    rewrite (isCompletionOpen_enabled r Hopen), Hopen. simpl.
    destruct (Z.ltb_spec 0 (alen (activeItems r))); [|lia].
    unfold setCompletionIndex.
    rewrite !Z.rem_mod_nonneg by lia. split; reflexivity. }
  split; [|split; reflexivity].
  intros r m Hopen Hn. unfold onKeyDown.
  rewrite (isCompletionOpen_enabled r Hopen), Hopen, Hn. split; reflexivity.
Qed.

End ControllerClaims.

Lemma apply_candidate_correct_witness :
  handleSelectFileItem (editing plainProps (js "hello @wor rest") 10)
    (candidate (js "deploy") (js "$deploy "))
  = {| text := splice (js "hello @wor rest") 6 10 (js "$deploy ");
       completionIndex := 0;
       cursorIndex := 6 + Js.len (js "$deploy ") |} /\
  @onKeyDown containsFilter
    (editing (propsWith [candidate (js "review") (js "/review ")] [])
       (js "/rev") 4)
    Enter false
  = Some {| text := js "/review ";
            completionIndex := 0;
            cursorIndex := Js.len (js "/review ") |}.
Proof.
  split.
  - exact (proj1 (@apply_candidate_correct containsFilter)
             (editing plainProps (js "hello @wor rest") 10)
             {| query := js "wor"; start := 6; end_ := 10 |}
             (candidate (js "deploy") (js "$deploy ")) eq_refl).
  - apply (proj2 (proj2 (proj2 (proj2 (proj2
             (@apply_candidate_correct containsFilter)))))).
    reflexivity.
Defined.

Lemma dismiss_correct_witness :
  @onKeyDown containsFilter (editing plainProps (js "/rev") 4) Escape false
  = Some {| text := []; completionIndex := 0; cursorIndex := 0 |}.
Proof.
  exact (proj1 (@dismiss_correct containsFilter)
           (editing plainProps (js "/rev") 4) false eq_refl).
Defined.

Lemma highlight_wraps_witness :
  let r := highlighting 2 (editing (propsWith [] threeFiles) (js "@ts") 3) in
  @onKeyDown containsFilter r ArrowDown false
  = Some (setCompletionIndex (fun i => (i + 1) mod 3) (state r)).
Proof.
  intros r.
  refine (proj1 (proj1 (@highlight_wraps containsFilter) r false eq_refl _ _)).
  - reflexivity.
  - discriminate.
Defined.

(* ===================================================================== *)
(** ** The highlighted index over the reachable screens *)
(* ===================================================================== *)

Section IndexInvariant.

Context `{SlashUtils}.

Implicit Types (r : Render) (st : ComposerState) (e : Event) (s : Screen)
  (p : Pending).

(** The derived values of a render do not read the highlighted index. *)
Lemma derived_same r r' :
  props r = props r' ->
  text (state r) = text (state r') ->
  cursorIndex (state r) = cursorIndex (state r') ->
  isSlashOpen r = isSlashOpen r' /\
  atQuery r = atQuery r' /\
  isAtOpen r = isAtOpen r' /\
  isCompletionOpen r = isCompletionOpen r' /\
  activeItems r = activeItems r'.
Proof.
  intros Hp Ht Hc.
  unfold activeItems, isCompletionOpen, isAtOpen, atQuery, atState,
    filteredSlashItems, isSlashOpen.
  rewrite Hp, Ht, Hc. repeat split.
Qed.

(** Nor do the dependencies of the two effects. *)
Lemma deps_same r r' :
  props r = props r' ->
  text (state r) = text (state r') ->
  cursorIndex (state r) = cursorIndex (state r') ->
  resetDeps r = resetDeps r' /\ clampDeps r = clampDeps r' /\
  activeTrigger r = activeTrigger r'.
Proof.
  intros Hp Ht Hc.
  destruct (derived_same r r' Hp Ht Hc) as (Hs & Hq & Ha & Ho & Hi).
  unfold resetDeps, clampDeps, activeTrigger.
  rewrite Hs, Hq, Ha, Ho, Hi, Ht. repeat split.
Qed.

Lemma alen_nonneg {A} (l : list A) : 0 <= alen l.
Proof. unfold alen. lia. Qed.

Lemma applyText_origin r t c : index_origin r (applyText t c).
Proof. right. left. reflexivity. Qed.

Lemma handleSelectFileItem_origin r item :
  index_origin r (handleSelectFileItem r item).
Proof.
  unfold handleSelectFileItem. destruct (atState r); apply applyText_origin.
Qed.

Lemma clearAtQuery_origin r : index_origin r (clearAtQuery r).
Proof.
  unfold clearAtQuery. destruct (atState r);
    [apply applyText_origin | left; reflexivity].
Qed.

Lemma handleSend_origin r : index_origin r (handleSend r).
Proof. unfold handleSend. destruct (negb _); left; reflexivity. Qed.

Lemma handleSelectSkill_origin r name : index_origin r (handleSelectSkill r name).
Proof.
  unfold handleSelectSkill. repeat case_match; apply applyText_origin.
Qed.

Lemma menuItems_active r : menuItems r = activeItems r.
Proof. reflexivity. Qed.

Lemma menuItems_open r i item :
  menuItems r !! i = Some item -> isCompletionOpen r = true.
Proof.
  unfold menuItems, isCompletionOpen.
  destruct (isSlashOpen r); [reflexivity|].
  destruct (isAtOpen r); [reflexivity|].
  intros Hl. rewrite lookup_nil in Hl. discriminate.
Qed.

(** The arrows need no more of the index they read than that it is not
    negative. *)
Lemma onKeyDown_origin r k m st :
  0 <= completionIndex (state r) ->
  onKeyDown r k m = Some st -> index_origin r st.
Proof.
  intros Hi. unfold onKeyDown.
  destruct (disabled (props r)); [intros [= <-]; left; reflexivity|].
  destruct (match k with Enter => m | _ => false end);
    [intros [= <-]; apply handleSend_origin|].
  destruct (isCompletionOpen r) eqn:Hopen; simpl;
    [|intros [= <-]; left; reflexivity].
  pose proof (alen_nonneg (activeItems r)) as Hn.
  destruct k.
  - destruct (Z.ltb_spec 0 (alen (activeItems r))) as [Hpos|_];
      intros [= <-]; [|left; reflexivity].
    right. right. split; [exact Hopen|]. simpl.
    rewrite Z.rem_mod_nonneg by lia. apply Z.mod_pos_bound. lia.
  - destruct (Z.ltb_spec 0 (alen (activeItems r))) as [Hpos|_];
      intros [= <-]; [|left; reflexivity].
    right. right. split; [exact Hopen|]. simpl.
    rewrite Z.rem_mod_nonneg by lia. apply Z.mod_pos_bound. lia.
  - destruct (0 <? alen (activeItems r)); [|intros [= <-]; left; reflexivity].
    destruct (index _ _) as [item|]; [|discriminate].
    intros [= <-]. destruct (isSlashOpen r);
      [apply applyText_origin | apply handleSelectFileItem_origin].
  - intros [= <-]. destruct (isSlashOpen r);
      [apply applyText_origin | apply clearAtQuery_origin].
  - intros [= <-]. left. reflexivity.
Qed.

Lemma handle_origin e r r1 :
  0 <= completionIndex (state r) ->
  handle e r = Some r1 -> index_origin r (state r1).
Proof.
  intros Hr. destruct e; simpl.
  - intros [= <-]. left. reflexivity.
  - intros [= <-]. left. reflexivity.
  - destruct (onKeyDown r key metaKey) as [st|] eqn:Hk; [|discriminate].
    intros [= <-]. apply (onKeyDown_origin r key metaKey st Hr Hk).
  - intros [= <-]. simpl. unfold onMenuHover.
    destruct (menuItems r !! i) as [item|] eqn:Hi; [|left; reflexivity].
    right. right. split; [apply (menuItems_open r i item Hi)|]. simpl.
    apply lookup_lt_Some in Hi. rewrite menuItems_active in Hi.
    unfold alen. lia.
  - intros [= <-]. simpl. unfold onMenuClick.
    destruct (menuItems r !! i); [|left; reflexivity].
    destruct (isSlashOpen r);
      [apply applyText_origin | apply handleSelectFileItem_origin].
  - intros [= <-]. simpl.
    destruct (disabled (props r) || negb (Js.truthy name));
      [left; reflexivity | apply handleSelectSkill_origin].
  - intros [= <-]. apply handleSend_origin.
  - intros [= <-]. left. reflexivity.
Qed.

Lemma closed_no_items r : isCompletionOpen r = false -> activeItems r = [].
Proof.
  unfold isCompletionOpen, activeItems.
  intros [-> ->]%orb_false_iff. reflexivity.
Qed.

(** What the pending effects write: the index, and nothing else. *)
Lemma applyEffects_state r p st :
  text (applyEffects r p st) = text st /\
  cursorIndex (applyEffects r p st) = cursorIndex st /\
  completionIndex (applyEffects r p st) =
    let i1 := if resetPending p then 0 else completionIndex st in
    if clampPending p then
      if negb (isCompletionOpen r) then i1
      else if alen (activeItems r) =? 0 then 0
      else Z.min i1 (alen (activeItems r) - 1)
    else i1.
Proof.
  unfold applyEffects, clampEffect, resetEffect, setCompletionIndex.
  repeat case_match; simpl; repeat split; reflexivity.
Qed.

(** An index at 0 stays where it is. *)
Lemma applyEffects_zero r p st :
  completionIndex st = 0 -> applyEffects r p st = st.
Proof.
  intros Hi.
  destruct (applyEffects_state r p st) as (Ht & Hc & Hidx).
  assert (completionIndex (applyEffects r p st) = 0) as H0.
  { rewrite Hidx, Hi. cbv zeta.
    pose proof (alen_nonneg (activeItems r)).
    repeat case_match; lia. }
  destruct (applyEffects r p st) as [t i c], st as [t1 i1 c1].
  simpl in *. congruence.
Qed.

Lemma applyEffects_none r st : applyEffects r noPending st = st.
Proof. reflexivity. Qed.

Lemma withState_state r : withState r (state r) = r.
Proof. destruct r; reflexivity. Qed.

Lemma scheduledEffects_same r0 r1 :
  resetDeps r0 = resetDeps r1 -> clampDeps r0 = clampDeps r1 ->
  scheduledEffects r0 r1 = noPending.
Proof.
  intros Hr Hc. unfold scheduledEffects.
  rewrite !bool_decide_eq_true_2 by assumption. reflexivity.
Qed.

(** Running the effects changes the index only, and leaves no effect
    pending. *)
Lemma flush_state s :
  props (committed (flush s)) = props (committed s) /\
  text (state (committed (flush s))) = text (state (committed s)) /\
  cursorIndex (state (committed (flush s)))
  = cursorIndex (state (committed s)) /\
  completionIndex (state (committed (flush s)))
  = completionIndex
      (applyEffects (committed s) (pending s) (state (committed s))) /\
  pending (flush s) = noPending.
Proof.
  destruct (applyEffects_state (committed s) (pending s) (state (committed s)))
    as (Ht & Hc & _).
  unfold flush, commit. cbv zeta. cbn [committed pending].
  split; [reflexivity|]. split; [exact Ht|]. split; [exact Hc|].
  split; [reflexivity|].
  destruct (deps_same (committed s)
              (withState (committed s)
                 (applyEffects (committed s) (pending s)
                    (state (committed s)))) eq_refl (eq_sym Ht) (eq_sym Hc))
    as (Hr & Hcl & _).
  apply scheduledEffects_same; assumption.
Qed.

Lemma flush_derived s :
  isCompletionOpen (committed (flush s)) = isCompletionOpen (committed s) /\
  activeItems (committed (flush s)) = activeItems (committed s) /\
  activeTrigger (committed (flush s)) = activeTrigger (committed s).
Proof.
  destruct (flush_state s) as (Hp & Ht & Hc & _).
  destruct (derived_same _ _ Hp Ht Hc) as (_ & _ & _ & Ho & Hi).
  destruct (deps_same _ _ Hp Ht Hc) as (_ & _ & Htr).
  repeat split; assumption.
Qed.

(** With no effect pending, running the effects changes nothing. *)
Lemma flush_settled s : pending s = noPending -> flush s = s.
Proof.
  destruct s as [r p]. simpl. intros ->.
  unfold flush, commit. cbn [committed pending].
  rewrite applyEffects_none, withState_state.
  rewrite scheduledEffects_same by reflexivity. reflexivity.
Qed.

Lemma flush_flush s : flush (flush s) = flush s.
Proof. apply flush_settled. apply (flush_state s). Qed.

(** A step is the commit of the state of the handler after the pending
    effects. *)
Lemma step_Some e s s' :
  step e s = Some s' ->
  exists r1,
    handle e (committed s) = Some r1 /\
    s' = commit (committed s)
           (withState r1 (applyEffects (committed s) (pending s) (state r1))).
Proof.
  unfold step. cbv zeta.
  destruct (handle e (committed s)) as [r1|]; [|discriminate].
  intros [= <-]. exists r1. split; reflexivity.
Qed.

(** A handler that leaves the index at 0: its render is committed as it
    is. *)
Lemma step_zero e s r1 :
  handle e (committed s) = Some r1 -> completionIndex (state r1) = 0 ->
  step e s = Some (commit (committed s) r1).
Proof.
  intros Hh Hi. unfold step. cbv zeta. rewrite Hh.
  rewrite applyEffects_zero by exact Hi. rewrite withState_state. reflexivity.
Qed.

(** What [runEffects] writes. *)
Lemma runEffects_state r0 r1 :
  props (runEffects r0 r1) = props r1 /\
  text (state (runEffects r0 r1)) = text (state r1) /\
  cursorIndex (state (runEffects r0 r1)) = cursorIndex (state r1) /\
  completionIndex (state (runEffects r0 r1)) =
    let i1 := if bool_decide (resetDeps r0 = resetDeps r1)
              then completionIndex (state r1) else 0 in
    if bool_decide (clampDeps r0 = clampDeps r1) then i1
    else if negb (isCompletionOpen r1) then i1
    else if alen (activeItems r1) =? 0 then 0
    else Z.min i1 (alen (activeItems r1) - 1).
Proof.
  unfold runEffects.
  destruct (flush_state (commit r0 r1)) as (Hp & Ht & Hc & Hi & _).
  split; [exact Hp|]. split; [exact Ht|]. split; [exact Hc|].
  rewrite Hi. cbn [commit committed pending].
  destruct (applyEffects_state r1 (scheduledEffects r0 r1) (state r1))
    as (_ & _ & ->).
  unfold scheduledEffects. cbn [resetPending clampPending]. cbv zeta.
  destruct (bool_decide (resetDeps r0 = resetDeps r1)),
    (bool_decide (clampDeps r0 = clampDeps r1)); reflexivity.
Qed.

Lemma runEffects_derived r0 r1 :
  isCompletionOpen (runEffects r0 r1) = isCompletionOpen r1 /\
  activeItems (runEffects r0 r1) = activeItems r1 /\
  activeTrigger (runEffects r0 r1) = activeTrigger r1.
Proof. apply (flush_derived (commit r0 r1)). Qed.

(** The step of the invariant: the render [r] is on screen with the
    effects [p] pending, a handler writes the state [st1], the pending
    effects run on it, and the next render is committed. *)
Lemma commit_range r p r1 :
  0 <= completionIndex (state r) ->
  index_in_range (withState r (applyEffects r p (state r))) ->
  index_origin r (state r1) ->
  0 <= completionIndex (applyEffects r p (state r1)) /\
  index_in_range (runEffects r (withState r1 (applyEffects r p (state r1)))).
Proof.
  intros Hi Hrange Horigin.
  set (r' := withState r1 (applyEffects r p (state r1))).
  destruct (applyEffects_state r p (state r)) as (Ht & Hc & Hidx).
  destruct (derived_same r (withState r (applyEffects r p (state r)))
              eq_refl (eq_sym Ht) (eq_sym Hc)) as (_ & _ & _ & _ & Hitems).
  unfold index_in_range in Hrange. rewrite <- Hitems in Hrange.
  cbn [withState state] in Hrange. rewrite Hidx in Hrange.
  clear Ht Hc Hidx Hitems.
  destruct (applyEffects_state r p (state r1)) as (_ & _ & Hidx1).
  destruct (runEffects_state r r') as (_ & _ & _ & Hidx').
  destruct (runEffects_derived r r') as (_ & Hitems' & _).
  unfold index_in_range. rewrite Hitems', Hidx'. clear Hidx' Hitems'.
  change (completionIndex (state r'))
    with (completionIndex (applyEffects r p (state r1))).
  rewrite Hidx1. clear Hidx1.
  pose proof (alen_nonneg (activeItems r)) as Hn0.
  pose proof (alen_nonneg (activeItems r')) as Hn1.
  assert (isCompletionOpen r = false -> alen (activeItems r) = 0) as Hc0
    by (intros Hc; rewrite (closed_no_items r Hc); reflexivity).
  assert (isCompletionOpen r' = false -> alen (activeItems r') = 0) as Hc1
    by (intros Hc; rewrite (closed_no_items r' Hc); reflexivity).
  assert (resetDeps r = resetDeps r' ->
          isCompletionOpen r = isCompletionOpen r') as Hreset
    by (intros [= _ Ho _]; exact Ho).
  assert (clampDeps r = clampDeps r' ->
          alen (activeItems r) = alen (activeItems r') /\
          isCompletionOpen r = isCompletionOpen r') as Hclamp
    by (intros [= Hn Ho]; split; assumption).
  unfold index_origin in Horigin.
  destruct (bool_decide_reflect (resetDeps r = resetDeps r')) as [Hr|_];
    [apply Hreset in Hr | clear Hreset];
    (destruct (bool_decide_reflect (clampDeps r = clampDeps r')) as [Hcl|_];
     [apply Hclamp in Hcl; destruct Hcl as [Hn Ho] | clear Hclamp]);
    set (n0 := alen (activeItems r)) in *;
    set (n1 := alen (activeItems r')) in *;
    set (i := completionIndex (state r)) in *;
    set (j := completionIndex (state r1)) in *;
    clearbody n0 n1 i j;
    destruct (isCompletionOpen r), (isCompletionOpen r'); try discriminate;
    destruct (resetPending p), (clampPending p);
    cbn [negb] in *; cbv zeta in *;
    repeat match goal with
           | |- context [Z.eqb ?a ?b] => destruct (Z.eqb_spec a b)
           | H : context [Z.eqb ?a ?b] |- _ => destruct (Z.eqb_spec a b)
           end;
    try specialize (Hc0 eq_refl); try specialize (Hc1 eq_refl);
    lia.
Qed.

Lemma mount_invariant props0 : index_invariant (mount props0).
Proof.
  split; [simpl; lia|].
  destruct (flush_state (mount props0)) as (_ & _ & _ & Hi & _).
  destruct (flush_derived (mount props0)) as (_ & Hitems & _).
  unfold index_in_range. rewrite Hitems, Hi.
  assert (isCompletionOpen (committed (mount props0)) = false) as Hclosed.
  { unfold isCompletionOpen, isAtOpen, atQuery, atState, isSlashOpen.
    simpl. destruct (disabled props0); reflexivity. }
  rewrite (closed_no_items _ Hclosed).
  unfold applyEffects, clampEffect. rewrite Hclosed. simpl.
  unfold alen. simpl. lia.
Qed.

Lemma flush_invariant s : index_invariant s -> index_invariant (flush s).
Proof.
  intros [_ Hrange]. split; [|rewrite flush_flush; exact Hrange].
  destruct Hrange as [Hzero Hpos].
  pose proof (alen_nonneg (activeItems (committed (flush s)))). lia.
Qed.

Lemma step_invariant e s s' :
  index_invariant s -> step e s = Some s' -> index_invariant s'.
Proof.
  intros [Hi Hrange] (r1 & Hh & ->)%step_Some.
  apply (commit_range (committed s) (pending s) r1 Hi Hrange).
  apply (handle_origin e _ r1 Hi Hh).
Qed.

Lemma reachable_invariant s : reachable s -> index_invariant s.
Proof.
  induction 1 as [props0|a s s' _ IH Hact].
  - apply mount_invariant.
  - destruct a as [e|]; simpl in Hact.
    + apply (step_invariant e s s' IH Hact).
    + injection Hact as <-. apply flush_invariant, IH.
Qed.

(** On a reachable screen with no effect pending the index is in range. *)
Lemma reachable_range s :
  reachable s -> pending s = noPending -> index_in_range (committed s).
Proof.
  intros [_ Hrange]%reachable_invariant Hp.
  rewrite (flush_settled s Hp) in Hrange. exact Hrange.
Qed.


Lemma play_reachable l s s' :
  reachable s -> play l s = Some s' -> reachable s'.
Proof.
  revert s. induction l as [|a l IH]; intros s Hs; simpl.
  - intros [= <-]. exact Hs.
  - destruct (act a s) as [s1|] eqn:Hact; [|discriminate].
    apply IH. apply (reach_act a s s1 Hs Hact).
Qed.


End IndexInvariant.



(* ===================================================================== *)
(** ** useFileSearch: responses *)
(* ===================================================================== *)

Module FileSearchFacts.

Import FileSearch.

Section Responses.

Implicit Types (h : Hook) (c : Closure) (outcome : Settled).

(** A settled promise of a superseded request: the callback returns at
    its first test and the [finally] block does nothing. *)
Lemma afterAwait_stale now c outcome h :
  requestId h <> currentId c -> afterAwait now c outcome h = (h, Return).
Proof.
  intros Hid%Z.eqb_neq.
  unfold afterAwait, tryCatchFinally, seq, when, isStale, return_, throw.
  destruct outcome; cbn; rewrite ?Hid; cbn; rewrite ?Hid; reflexivity.
Qed.

Lemma afterAwait_fulfilled now c response h :
  requestId h = currentId c ->
  afterAwait now c (Fulfilled response) h
  = (setIsLoading
       (callOnDebug (setItems h (normalize response)) (debug c)
          {| DebugEntry.id := (now, "-server-file-search"%string);
             DebugEntry.timestamp := now;
             DebugEntry.source := DebugEntry.server;
             DebugEntry.label := "file/search response"%string;
             DebugEntry.payload :=
               DebugEntry.Count (alen (normalize response)) |})
       false, Normal).
Proof.
  intros Hid%Z.eqb_eq.
  unfold afterAwait, tryCatchFinally, seq, when, isStale, exec.
  rewrite Hid. cbn. destruct (debug c); cbn; rewrite Hid; reflexivity.
Qed.

Lemma afterAwait_rejected now c reason h :
  requestId h = currentId c ->
  afterAwait now c (Rejected reason) h
  = (setIsLoading
       (setItems (callOnDebug h (debug c) (errorEntry now reason)) [])
       false, Normal).
Proof.
  intros Hid%Z.eqb_eq.
  unfold afterAwait, tryCatchFinally, seq, when, isStale, exec, throw.
  cbn. rewrite Hid. cbn. destruct (debug c); cbn; rewrite Hid; reflexivity.
Qed.

(** Whatever settles, the callback completes without a pending throw. *)
Lemma afterAwait_completes now c outcome h :
  snd (afterAwait now c outcome h) = Normal \/
  snd (afterAwait now c outcome h) = Return.
Proof.
  destruct (Z.eq_dec (requestId h) (currentId c)) as [Hid|Hid].
  - left. destruct outcome.
    + rewrite afterAwait_fulfilled by assumption. reflexivity.
    + rewrite afterAwait_rejected by assumption. reflexivity.
  - right. rewrite afterAwait_stale by assumption. reflexivity.
Qed.

Lemma take_awaiting_Some id l c rest :
  take_awaiting id l = Some (c, rest) ->
  currentId c = id /\ c ∈ l /\ (forall c', c' ∈ rest -> c' ∈ l).
Proof.
  revert c rest. induction l as [|x l IH]; intros c rest; simpl;
    [discriminate|].
  destruct (Z.eqb_spec (currentId x) id) as [Hx|Hx].
  - intros [= <- <-]. split; [exact Hx|]. split; [left|].
    intros c' Hc'. right. exact Hc'.
  - destruct (take_awaiting id l) as [[c0 rest0]|]; [|discriminate].
    intros [= <- <-]. destruct (IH c0 rest0 eq_refl) as (Hid & Hin & Hrest).
    split; [exact Hid|]. split; [right; exact Hin|].
    intros c' [->|Hc']%elem_of_cons; [left | right; apply Hrest, Hc'].
Qed.

(** A step that settles a promise, unfolded. *)
Lemma step_settles now id outcome h h' :
  step (Settles now id outcome) h = Some h' ->
  exists c rest,
    clock h <= now /\
    take_awaiting id (awaiting h) = Some (c, rest) /\
    currentId c = id /\ c ∈ awaiting h /\
    h' = fst (afterAwait now c outcome (setAwaiting (setClock h now) rest)).
Proof.
  unfold step. simpl time.
  destruct (Z.ltb_spec now (clock h)) as [|Hclock]; [discriminate|].
  simpl awaiting.
  destruct (take_awaiting id (awaiting h)) as [[c rest]|] eqn:Htake;
    [|discriminate].
  intros [= <-]. exists c, rest.
  destruct (take_awaiting_Some _ _ _ _ Htake) as (Hid & Hin & _).
  repeat split; assumption.
Qed.

Lemma settles_stale now id outcome h h' :
  step (Settles now id outcome) h = Some h' ->
  id <> requestId h ->
  items h' = items h /\ isLoading h' = isLoading h /\
  debugLog h' = debugLog h /\ requestId h' = requestId h /\
  timer h' = timer h /\ requests h' = requests h.
Proof.
  intros (c & rest & _ & _ & Hid & _ & ->)%step_settles Hne.
  rewrite afterAwait_stale by (simpl; congruence).
  repeat split.
Qed.

(** The callback writes nothing but the two state cells and the log. *)
Lemma afterAwait_frame now c outcome h :
  let h' := fst (afterAwait now c outcome h) in
  requestId h' = requestId h /\ timer h' = timer h /\
  awaiting h' = awaiting h /\ requests h' = requests h /\
  deps h' = deps h /\ clock h' = clock h.
Proof.
  destruct (Z.eq_dec (requestId h) (currentId c)) as [Hid|Hid].
  - destruct outcome.
    + rewrite afterAwait_fulfilled by assumption.
      unfold callOnDebug. destruct (debug c); repeat split.
    + rewrite afterAwait_rejected by assumption.
      unfold callOnDebug. destruct (debug c); repeat split.
  - rewrite afterAwait_stale by assumption. repeat split.
Qed.

Lemma effect_requestId now o h : requestId (effect now o h) = requestId h + 1.
Proof. unfold effect. repeat case_match; reflexivity. Qed.

Lemma effect_frame now o h :
  awaiting (effect now o h) = awaiting h /\
  requests (effect now o h) = requests h /\
  clock (effect now o h) = clock h.
Proof. unfold effect. repeat case_match; repeat split. Qed.

(** The timer the effect leaves: the one of the scheduled request. *)
Lemma effect_timer now o h :
  timer (effect now o (cleanup h)) =
  match scheduled o with
  | Some rq => Some {| due := now + timerDelay (debounceMs o);
                       callback := {| currentId := requestId h + 1;
                                      args := rq;
                                        debug := supplied (onDebug o) |} |}
  | None => None
  end.
Proof. unfold effect, scheduled. repeat case_match; reflexivity. Qed.

(** A step whose render re-runs the effect, unfolded. *)
Lemma step_render now o h h' :
  step (Render now o) h = Some h' ->
  clock h <= now /\
  h' = render now o (setClock h now).
Proof.
  unfold step. simpl time.
  destruct (Z.ltb_spec now (clock h)); [discriminate|].
  intros [= <-]. split; [assumption | reflexivity].
Qed.

Lemma step_fires now h h' :
  step (TimerFires now) h = Some h' ->
  exists t,
    clock h <= now /\ timer h = Some t /\ due t <= now /\
    h' = beforeAwait now (callback t) (setTimer (setClock h now) None).
Proof.
  unfold step. simpl time.
  destruct (Z.ltb_spec now (clock h)); [discriminate|]. simpl timer.
  destruct (timer h) as [t|]; [|discriminate].
  destruct (Z.leb_spec (due t) now); [|discriminate].
  intros [= <-]. exists t. auto.
Qed.

Lemma beforeAwait_frame now c h :
  requestId (beforeAwait now c h) = requestId h /\
  timer (beforeAwait now c h) = timer h /\
  awaiting (beforeAwait now c h) = awaiting h ++ [c] /\
  requests (beforeAwait now c h) = requests h ++ [args c] /\
  deps (beforeAwait now c h) = deps h /\
  clock (beforeAwait now c h) = clock h.
Proof.
  unfold beforeAwait, callOnDebug. destruct (debug c); repeat split.
Qed.

(** The counter never decreases, and a render that re-runs the effect
    increases it. *)
Lemma step_requestId e h h' :
  step e h = Some h' -> requestId h <= requestId h'.
Proof.
  destruct e as [now o|now|now id outcome].
  - intros [_ ->]%step_render. unfold render.
    destruct (bool_decide _); simpl; [lia|].
    rewrite effect_requestId. simpl. lia.
  - intros (t & _ & _ & _ & ->)%step_fires.
    destruct (beforeAwait_frame now (callback t)
                (setTimer (setClock h now) None)) as (-> & _). simpl. lia.
  - intros (c & rest & _ & _ & _ & _ & ->)%step_settles.
    destruct (afterAwait_frame now c outcome
                (setAwaiting (setClock h now) rest)) as (-> & _). simpl. lia.
Qed.

Lemma run_requestId es h h' :
  run es h = Some h' -> requestId h <= requestId h'.
Proof.
  revert h. induction es as [|e es IH]; intros h; simpl.
  - intros [= <-]. lia.
  - destruct (step e h) as [h1|] eqn:Hstep; [|discriminate].
    intros Hrun. apply step_requestId in Hstep. apply IH in Hrun. lia.
Qed.

Lemma render_supersedes now o h h' :
  deps h <> Some o -> step (Render now o) h = Some h' ->
  requestId h' = requestId h + 1.
Proof.
  intros Hdeps [_ ->]%step_render. unfold render. simpl deps.
  destruct (bool_decide_reflect (deps h = Some o)); [contradiction|].
  simpl. rewrite effect_requestId. reflexivity.
Qed.

Lemma step_ids_bounded e h h' :
  ids_bounded h -> step e h = Some h' -> ids_bounded h'.
Proof.
  intros [Haw Htm] Hstep. pose proof (step_requestId e h h' Hstep) as Hmono.
  destruct e as [now o|now|now id outcome].
  - apply step_render in Hstep as [_ ->]. unfold render in *. simpl deps in *.
    destruct (bool_decide (deps h = Some o)); [split; assumption|].
    split.
    + simpl. destruct (effect_frame now o (cleanup (setClock h now))) as (-> & _).
      simpl. intros c Hc. specialize (Haw c Hc). simpl in Hmono. lia.
    + simpl. rewrite effect_timer, effect_requestId. simpl.
      destruct (scheduled o); [|discriminate].
      intros t [= <-]. simpl. lia.
  - apply step_fires in Hstep as (t & _ & Ht & _ & ->).
    destruct (beforeAwait_frame now (callback t)
                (setTimer (setClock h now) None)) as (Hr & Htimer & Ha & _).
    split.
    + rewrite Ha, Hr. simpl. intros c [Hc|Hc]%elem_of_app.
      * apply Haw, Hc.
      * apply list_elem_of_singleton in Hc as ->. apply Htm, Ht.
    + rewrite Htimer. simpl. discriminate.
  - apply step_settles in Hstep as (c & rest & _ & Htake & _ & _ & ->).
    destruct (afterAwait_frame now c outcome
                (setAwaiting (setClock h now) rest)) as (Hr & Htimer & Ha & _).
    destruct (take_awaiting_Some _ _ _ _ Htake) as (_ & _ & Hrest).
    split.
    + rewrite Ha, Hr. simpl. intros c' Hc'. apply Haw, Hrest, Hc'.
    + rewrite Htimer, Hr. simpl. exact Htm.
Qed.

Lemma reachable_ids_bounded h : reachable h -> ids_bounded h.
Proof.
  induction 1 as [|e h h' _ IH Hstep].
  - split; simpl; [intros c Hc; inversion Hc | discriminate].
  - apply (step_ids_bounded e h h' IH Hstep).
Qed.

(** C1: a response, success or error, changes the displayed candidates or
    the loading flag only if the sequence number it carries is still the
    current counter when it resolves; a response of a request superseded by
    a newer query or by the closing of the trigger is discarded, changes
    nothing on display and is not reported.  With ["ab"] in flight and
    ["abc"] dispatched after it, the ["ab"] response applied after the
    ["abc"] response leaves the displayed candidates unchanged. *)
Theorem stale_response_discarded :
  (forall h now id outcome h',
     step (Settles now id outcome) h = Some h' ->
     id <> requestId h ->
     displayed h' = displayed h /\ debugLog h' = debugLog h) /\
  (forall h now id outcome h',
     step (Settles now id outcome) h = Some h' ->
     displayed h' <> displayed h ->
     id = requestId h) /\
  (forall h c now o h1 es h2 now' outcome h3,
     reachable h -> c ∈ awaiting h ->
     deps h <> Some o -> step (Render now o) h = Some h1 ->
     run es h1 = Some h2 ->
     step (Settles now' (currentId c) outcome) h2 = Some h3 ->
     displayed h3 = displayed h2 /\ debugLog h3 = debugLog h2) /\
  displayed (after overtaken) = ([js "src/abc.ts"], false) /\
  displayed
    (after (overtaken ++ [Settles 600 1 (Fulfilled (ArrayOf [js "src/ab.ts"]))]))
  = displayed (after overtaken) /\
  displayed
    (after (overtaken ++ [Settles 600 1 (Rejected (ErrorObject (js "timeout")))]))
  = displayed (after overtaken).
Proof.
  assert (forall h now id outcome h',
     step (Settles now id outcome) h = Some h' ->
     id <> requestId h ->
     displayed h' = displayed h /\ debugLog h' = debugLog h) as Hstale.
  { intros h now id outcome h' Hstep Hid.
    destruct (settles_stale now id outcome h h' Hstep Hid)
      as (Hi & Hl & Hd & _).
    unfold displayed. rewrite Hi, Hl, Hd. split; reflexivity. }
  split; [exact Hstale|].
  split.
  { intros h now id outcome h' Hstep Hchange.
    destruct (Z.eq_dec id (requestId h)) as [|Hid]; [assumption|].
    exfalso. apply Hchange, (Hstale h now id outcome h' Hstep Hid). }
  split.
  { intros h c now o h1 es h2 now' outcome h3 Hreach Hc Hdeps Hrender Hrun.
    intros Hsettle. apply (Hstale _ _ _ _ _ Hsettle).
    pose proof (proj1 (reachable_ids_bounded h Hreach) c Hc) as Hle.
    pose proof (render_supersedes now o h h1 Hdeps Hrender) as Hnew.
    pose proof (run_requestId es h1 h2 Hrun) as Hmono.
    lia. }
  split; [vm_compute; reflexivity|].
  split; vm_compute; reflexivity.
Qed.

Lemma stale_response_discarded_witness :
  displayed
    (after (overtaken ++ [Settles 600 1 (Fulfilled (ArrayOf [js "src/ab.ts"]))]))
  = displayed (after overtaken).
Proof.
  refine (proj1 (proj1 stale_response_discarded (after overtaken) 600 1
                   (Fulfilled (ArrayOf [js "src/ab.ts"])) _ _ _)).
  - vm_compute. reflexivity.
  - vm_compute. discriminate.
Defined.

(** C8 as it stands fails on a failure that arrives late: the ["ab"]
    request of [overtaken] is rejected after the ["abc"] response; the
    candidates stay and nothing is reported. *)
Lemma late_failure_not_cleared :
  items (after (overtaken
                ++ [Settles 600 1 (Rejected (ErrorObject (js "timeout")))]))
  = [js "src/abc.ts"] /\
  debugLog (after (overtaken
                   ++ [Settles 600 1 (Rejected (ErrorObject (js "timeout")))]))
  = debugLog (after overtaken).
Proof. split; vm_compute; reflexivity. Qed.

(** C8, amended: the failure of a request that is still current is caught;
    the candidate list becomes empty, the loading flag is cleared and the
    error is passed to [onDebug] when the callback is supplied.  The
    failure of a superseded request is caught and discarded: nothing on
    display changes and nothing is reported.  In no case does the callback
    end with a pending exception. *)
Theorem search_failure_contained :
  (forall h now id reason h',
     step (Settles now id (Rejected reason)) h = Some h' ->
     id = requestId h ->
     exists c,
       c ∈ awaiting h /\ currentId c = id /\
       items h' = [] /\ isLoading h' = false /\
       debugLog h' = if debug c
                     then debugLog h ++ [errorEntry now reason]
                     else debugLog h) /\
  (forall h now id reason h',
     step (Settles now id (Rejected reason)) h = Some h' ->
     id <> requestId h ->
     displayed h' = displayed h /\ debugLog h' = debugLog h) /\
  (forall now c outcome h e, snd (afterAwait now c outcome h) <> Throw e).
Proof.
  split.
  { intros h now id reason h' (c & rest & _ & _ & Hid & Hin & ->)%step_settles.
    intros Hcur. exists c. split; [exact Hin|]. split; [exact Hid|].
    rewrite afterAwait_rejected by (simpl; congruence).
    unfold callOnDebug. destruct (debug c); repeat split. }
  split.
  { intros h now id reason h' Hstep Hid.
    destruct (settles_stale now id _ h h' Hstep Hid) as (Hi & Hl & Hd & _).
    unfold displayed. rewrite Hi, Hl, Hd. split; reflexivity. }
  intros now c outcome h e.
  destruct (afterAwait_completes now c outcome h) as [-> | ->]; discriminate.
Qed.

Lemma search_failure_contained_witness :
  exists c,
    c ∈ awaiting (after inFlight) /\ currentId c = 1 /\
    items (after (inFlight ++ [Settles 300 1 (Rejected (ErrorObject (js "timeout")))]))
    = [] /\
    isLoading (after (inFlight ++ [Settles 300 1 (Rejected (ErrorObject (js "timeout")))]))
    = false /\
    debugLog (after (inFlight ++ [Settles 300 1 (Rejected (ErrorObject (js "timeout")))]))
    = if debug c
      then debugLog (after inFlight)
           ++ [errorEntry 300 (ErrorObject (js "timeout"))]
      else debugLog (after inFlight).
Proof.
  refine (proj1 search_failure_contained (after inFlight) 300 1
            (ErrorObject (js "timeout")) _ _ _).
  - vm_compute. reflexivity.
  - vm_compute. reflexivity.
Defined.

End Responses.

(* ===================================================================== *)
(** ** useFileSearch: debounce *)
(* ===================================================================== *)

Section Debounce.

Implicit Types (h : Hook) (o : Options) (q : option Js.str)
  (rest : list (Z * option Js.str)) (es : list Event).

(** The first arrival of a run: the effect runs and leaves the hook
    waiting for its timer. *)
Lemma render_waiting now o h h' :
  deps h <> Some o -> step (Render now o) h = Some h' ->
  requests h' = requests h /\ clock h' = now /\ deps h' = Some o /\
  timer h' =
    match scheduled o with
    | Some rq => Some {| due := now + timerDelay (debounceMs o);
                         callback := {| currentId := requestId h + 1;
                                        args := rq;
                                        debug := supplied (onDebug o) |} |}
    | None => None
    end.
Proof.
  intros Hdeps [_ ->]%step_render. unfold render. simpl deps.
  destruct (bool_decide_reflect (deps h = Some o)); [contradiction|].
  simpl. rewrite effect_timer.
  destruct (effect_frame now o (cleanup (setClock h now))) as (_ & -> & ->).
  repeat split.
Qed.

Lemma render_enters_waiting now o h h' :
  deps h <> Some o -> step (Render now o) h = Some h' ->
  waiting (requests h) now o h' /\ clock h' = now.
Proof.
  intros Hdeps Hstep.
  destruct (render_waiting now o h h' Hdeps Hstep) as (Hr & Hc & Hd & Ht).
  split; [|exact Hc]. split; [exact Hd|].
  destruct (scheduled o) as [rq|]; [|split; assumption].
  right. split; [exact Hr|]. eexists. split; [exact Ht|]. split; reflexivity.
Qed.

(** A run of closely spaced, changing queries keeps the hook waiting, for
    the last query that arrived. *)
Lemma run_waiting o sent es :
  forall h h' tk qk rest,
    waiting sent tk (withQuery o qk) h -> tk <= clock h ->
    spaced (timerDelay (debounceMs o)) tk qk rest ->
    rendersOf es = rendersWith o rest ->
    run es h = Some h' ->
    waiting sent (fst (lastArrival tk qk rest))
      (withQuery o (snd (lastArrival tk qk rest))) h'.
Proof.
  induction es as [|e es IH]; intros h h' tk qk rest Hw Hclock Hsp Hren Hrun.
  - simpl in Hrun. injection Hrun as <-.
    destruct rest; [exact Hw | discriminate].
  - simpl in Hrun. destruct (step e h) as [h1|] eqn:Hstep; [|discriminate].
    destruct Hw as [Hdeps Hw].
    destruct e as [now o'|now|now id outcome].
    + destruct rest as [|[t q] rest']; [discriminate|].
      simpl in Hren. injection Hren as -> -> Hren.
      destruct Hsp as (Hgap & Hq & Hsp). simpl lastArrival.
      assert (deps h <> Some (withQuery o q)) as Hnew.
      { rewrite Hdeps. intros [= Heq]. congruence. }
      pose proof (proj1 (step_render _ _ _ _ Hstep)) as Hnow.
      destruct (render_enters_waiting _ _ _ _ Hnew Hstep) as [Hw1 Hc1].
      assert (requests h = sent) as Hsent.
      { destruct (scheduled (withQuery o qk)); [|apply Hw].
        destruct Hw as [(_ & _ & Hfired)|[Hr _]]; [|exact Hr].
        cbn [debounceMs withQuery] in Hfired. lia. }
      rewrite Hsent in Hw1.
      apply (IH h1 h' t q rest' Hw1); try assumption. lia.
    + apply step_fires in Hstep as (t0 & Hnow & Ht0 & Hdue & Hh1).
      destruct (beforeAwait_frame now (callback t0)
                  (setTimer (setClock h now) None))
        as (_ & Htimer & _ & Hreq & Hd & Hc).
      rewrite <- Hh1 in Htimer, Hreq, Hd, Hc. simpl in Htimer, Hreq, Hd, Hc.
      apply (IH h1 h' tk qk rest); try assumption; [|lia].
      split; [rewrite Hd; exact Hdeps|].
      destruct (scheduled (withQuery o qk)) as [rq|].
      * destruct Hw as [(Hnone & _)|(Hr & t & Ht & Hdt & Hargs)];
          [congruence|].
        left. assert (t0 = t) as -> by congruence.
        rewrite Htimer, Hreq, Hc, Hr, Hargs. repeat split. lia.
      * destruct Hw as [Hnone _]. congruence.
    + apply step_settles in Hstep as (c & rest0 & Hnow & _ & _ & _ & Hh1).
      destruct (afterAwait_frame now c outcome
                  (setAwaiting (setClock h now) rest0))
        as (_ & Htimer & _ & Hreq & Hd & Hc).
      rewrite <- Hh1 in Htimer, Hreq, Hd, Hc. simpl in Htimer, Hreq, Hd, Hc.
      apply (IH h1 h' tk qk rest); try assumption; [|lia].
      split; [rewrite Hd; exact Hdeps|].
      rewrite Htimer, Hreq, Hc.
      destruct (scheduled (withQuery o qk)) as [rq|]; [|exact Hw].
      destruct Hw as [(Hnone & Hr & Hfired)|Hpending];
        [left; repeat split; try assumption; lia | right; exact Hpending].
Qed.

(** A pending timer that is due fires and sends its request. *)
Lemma due_timer_fires now h t :
  timer h = Some t -> clock h <= now -> due t <= now ->
  exists h', step (TimerFires now) h = Some h' /\
             requests h' = requests h ++ [args (callback t)] /\
             timer h' = None.
Proof.
  intros Ht Hclock Hdue. unfold step. simpl time.
  destruct (Z.ltb_spec now (clock h)); [lia|]. simpl timer. rewrite Ht.
  destruct (Z.leb_spec (due t) now); [|lia].
  eexists. split; [reflexivity|].
  destruct (beforeAwait_frame now (callback t)
              (setTimer (setClock h now) None)) as (_ & -> & _ & -> & _).
  split; reflexivity.
Qed.

Lemma scheduled_Some o rq :
  scheduled o = Some rq <->
  enabled o = true /\
  exists w s,
    workspaceId o = Some w /\ w <> [] /\
    query o = Some s /\ Js.trim s <> [] /\
    rq = {| req_workspaceId := w; req_query := Js.trim s;
            req_limit := limit o |}.
Proof.
  unfold scheduled, hasWorkspace, trimmedQuery. split.
  - destruct (workspaceId o) as [[|x w]|]; simpl; try discriminate.
    destruct (enabled o); simpl; [|discriminate].
    destruct (query o) as [s|]; simpl; [|discriminate].
    destruct (Z.ltb_spec (Js.len (Js.trim s)) 1) as [|Hlen]; [discriminate|].
    intros [= <-]. split; [reflexivity|]. exists (x :: w), s.
    repeat split; try discriminate.
    intros Hnil. rewrite Hnil, len_nil in Hlen. lia.
  - intros (-> & w & s & -> & Hw & -> & Hs & ->).
    destruct w as [|x w]; [contradiction|]. simpl.
    destruct (Z.ltb_spec (Js.len (Js.trim s)) 1) as [Hlen|]; [|reflexivity].
    destruct (Js.trim s) as [|y s']; [contradiction|].
    rewrite len_cons in Hlen. pose proof (len_nonneg s'). lia.
Qed.

(** A caller that passes a new [onDebug] function on the render that
    follows [setIsLoading(true)] restarts the timer: the same query is
    sent twice. *)
Lemma new_callback_restarts_search :
  (requests <$>
     run [Render 0 (asking "ab"); TimerFires 200;
          Render 200 (withDefaults (Some (js "ws")) (Some (js "ab"))
                        (Some 1%nat));
          TimerFires 400] initial)
  = Some [{| req_workspaceId := js "ws"; req_query := js "ab";
             req_limit := 200 |};
          {| req_workspaceId := js "ws"; req_query := js "ab";
             req_limit := 200 |}].
Proof. vm_compute. reflexivity. Qed.

(** A [debounceMs] of 2^31 does not fit the timer: the callback is due at
    once, and two queries 50 ms apart are both sent. *)
Lemma oversized_delay_fires_at_once :
  let o := {| workspaceId := Some (js "ws"); query := None;
              limit := 200; debounceMs := 2147483648; enabled := true;
              onDebug := None |} in
  (map req_query <$>
     (requests <$>
        run [Render 0 (withQuery o (Some (js "a"))); TimerFires 0;
             Render 50 (withQuery o (Some (js "ab"))); TimerFires 50]
          initial))
  = Some [js "a"; js "ab"].
Proof. vm_compute. reflexivity. Qed.

(** C2 as it stands fails when the last query of the run is blank: the
    three renders of [typedBlank] are valid, no request has left, no timer
    is pending, and none can fire later. *)
Lemma blank_last_query_sends_nothing :
  (requests <$> run typedBlank initial) = Some [] /\
  (timer <$> run typedBlank initial) = Some None /\
  run (typedBlank ++ [TimerFires 300]) initial = None.
Proof. split; [|split]; vm_compute; reflexivity. Qed.

(** A delay a 32-bit timer can hold is kept as it is. *)
Lemma timerDelay_small d : 0 <= d < 2147483648 -> timerDelay d = d.
Proof.
  intros Hd. unfold timerDelay, toInt32.
  replace ((d + 2147483648) mod 4294967296) with (d + 2147483648)
    by (symmetry; apply Z.mod_small; lia).
  lia.
Qed.

(** C2, amended: in a run in which only the query changes (the other
    options, the [onDebug] function among them, stay the same), with
    queries that arrive less than the timer's delay after one another,
    each different from the one before, no request leaves before the last
    query, and at most one leaves after it.  The delay is [debounceMs]
    itself when [0 <= debounceMs < 2^31].  When the hook is enabled, has a
    workspace and the last query is not blank, that request carries the
    trimmed last query, and it leaves: either the timer has fired, or it
    is pending with the last arrival plus the delay as due time and fires
    at any later time.  When the last query is blank (or the hook is
    disabled or has no workspace), no request leaves and no timer is
    pending.  For ["a"], ["ab"], ["abc"] the one request is for
    ["abc"]. *)
Theorem debounce_sends_last_query :
  (forall o h t1 q1 rest es h',
     deps h <> Some (withQuery o q1) ->
     spaced (timerDelay (debounceMs o)) t1 q1 rest ->
     rendersOf es = rendersWith o rest ->
     run (Render t1 (withQuery o q1) :: es) h = Some h' ->
     match scheduled (withQuery o (snd (lastArrival t1 q1 rest))) with
     | Some rq =>
         (timer h' = None /\ requests h' = requests h ++ [rq]) \/
         (requests h' = requests h /\
          exists t,
            timer h' = Some t /\
            due t = fst (lastArrival t1 q1 rest) + timerDelay (debounceMs o) /\
            forall now,
              clock h' <= now -> due t <= now ->
              exists h'',
                step (TimerFires now) h' = Some h'' /\
                requests h'' = requests h ++ [rq] /\
                timer h'' = None)
     | None => timer h' = None /\ requests h' = requests h
     end) /\
  (forall o rq,
     scheduled o = Some rq <->
     enabled o = true /\
     exists w s,
       workspaceId o = Some w /\ w <> [] /\
       query o = Some s /\ Js.trim s <> [] /\
       rq = {| req_workspaceId := w; req_query := Js.trim s;
               req_limit := limit o |}) /\
  (forall d, 0 <= d < 2147483648 -> timerDelay d = d) /\
  (requests <$> run (typedAbc ++ [TimerFires 300]) initial)
  = Some [{| req_workspaceId := js "ws"; req_query := js "abc";
             req_limit := 200 |}].
Proof.
  split; [|split; [exact scheduled_Some|split; [exact timerDelay_small|]]];
    [|vm_compute; reflexivity].
  intros o h t1 q1 rest es h' Hdeps Hsp Hren Hrun. simpl in Hrun.
  destruct (step (Render t1 (withQuery o q1)) h) as [h1|] eqn:Hstep;
    [|discriminate].
  destruct (render_enters_waiting _ _ _ _ Hdeps Hstep) as [Hw Hclock].
  assert (t1 <= clock h1) as Hle by lia.
  pose proof (run_waiting o (requests h) es h1 h' t1 q1 rest Hw Hle Hsp
                Hren Hrun) as [_ Hend].
  destruct (scheduled (withQuery o (snd (lastArrival t1 q1 rest))))
    as [rq|]; [|exact Hend].
  destruct Hend as [(Hnone & Hr & _)|(Hr & t & Ht & Hdue & Hargs)].
  - left. split; assumption.
  - right. split; [exact Hr|]. exists t. split; [exact Ht|].
    split; [exact Hdue|].
    intros now Hnow Hdue'.
    destruct (due_timer_fires now h' t Ht Hnow Hdue') as (h'' & Hs & Hr' & Ht').
    exists h''. rewrite Hr', Hr, Hargs. auto.
Qed.

End Debounce.

Lemma debounce_sends_last_query_witness :
  (timer (after (typedAbc ++ [TimerFires 300])) = None /\
   requests (after (typedAbc ++ [TimerFires 300]))
   = requests initial
     ++ [{| req_workspaceId := js "ws"; req_query := js "abc";
            req_limit := 200 |}]) \/
  (requests (after (typedAbc ++ [TimerFires 300])) = requests initial /\
   exists t,
     timer (after (typedAbc ++ [TimerFires 300])) = Some t /\
     due t = 100 + timerDelay 200 /\
     forall now,
       clock (after (typedAbc ++ [TimerFires 300])) <= now -> due t <= now ->
       exists h'',
         step (TimerFires now) (after (typedAbc ++ [TimerFires 300]))
         = Some h'' /\
         requests h''
         = requests initial
           ++ [{| req_workspaceId := js "ws"; req_query := js "abc";
                  req_limit := 200 |}] /\
         timer h'' = None).
Proof.
  refine (proj1 debounce_sends_last_query (asking "") initial
            0 (Some (js "a")) [(50, Some (js "ab")); (100, Some (js "abc"))]
            [Render 50 (asking "ab"); Render 100 (asking "abc");
             TimerFires 300]
            (after (typedAbc ++ [TimerFires 300])) _ _ _ _).
  - discriminate.
  - simpl. repeat split; (lia || discriminate).
  - reflexivity.
  - vm_compute. reflexivity.
Defined.

End FileSearchFacts.

(* ===================================================================== *)
(** ** More on mention detection *)
(* ===================================================================== *)

Section MentionMore.

Implicit Types (text pre a after x y : Js.str) (tr : AtQueryState).

(** The text before the cursor ends in a part with a space and without
    [@]: no trigger. *)
Lemma no_trigger_after_space text c m x y :
  take (Z.to_nat c) text = x ++ y ->
  at_sign ∉ y -> space ∈ y ->
  findAtQuery text c m = None.
Proof.
  intros Htake Hat Hsp.
  destruct (findAtQuery text c m) as [tr|] eqn:Hf; [|reflexivity].
  exfalso.
  apply findAtQuery_spec in Hf
    as (pre & a & after & Ht & _ & _ & _ & _ & Hns & _).
  rewrite Htake in Ht.
  replace (pre ++ a ++ at_sign :: after)
    with ((pre ++ a ++ [at_sign]) ++ after) in Ht
    by (rewrite <- !app_assoc; reflexivity).
  apply app_eq_inv in Ht as [(k & Hx & Hy)|(k & Hx & Hy)].
  - apply Hns. rewrite Hy. apply elem_of_app. right. exact Hsp.
  - destruct k as [|z k _] using rev_ind.
    + rewrite app_nil_l in Hy. apply Hns. rewrite <- Hy. exact Hsp.
    + rewrite !app_assoc in Hx. apply app_inj_tail in Hx as [_ Hz].
      apply Hat. rewrite Hy, Hz, !elem_of_app, list_elem_of_singleton. auto.
Qed.

(** X1: the span of a detected trigger holds the [@] followed by the
    query, and the query has no space, no newline and no further [@]. *)
Theorem mention_span_holds_query text c m tr :
  findAtQuery text c m = Some tr ->
  Js.slice text (start tr) (Some (end_ tr)) = at_sign :: query tr /\
  (space ∉ query tr) /\ (newline ∉ query tr) /\ (at_sign ∉ query tr) /\
  m <= Js.len (query tr).
Proof.
  intros Hf. pose proof (findAtQuery_span text c m tr Hf) as (H0 & Hlen & He).
  apply findAtQuery_spec in Hf
    as (pre & a & after & Ht & _ & Hnl & Hat & _ & Hsp & Hm & ->).
  simpl in *. repeat split; try assumption.
  - unfold Js.slice. pose proof (len_nonneg after) as Ha.
    pose proof (len_nonneg text) as Hn.
    assert (0 <= c) by lia.
    rewrite !rel_nonneg by lia.
    replace (Z.min (Js.len pre + Js.len a) (Js.len text))
      with (Js.len pre + Js.len a) by lia.
    rewrite take_drop_commute.
    replace (Z.to_nat (Js.len pre + Js.len a) +
             Z.to_nat (Z.max (Z.min c (Js.len text)
                              - (Js.len pre + Js.len a)) 0))%nat
      with (Z.to_nat (Z.min c (Js.len text))) by lia.
    assert (take (Z.to_nat (Z.min c (Js.len text))) text
            = take (Z.to_nat c) text) as ->.
    { destruct (Z.le_gt_cases c (Js.len text)).
      - rewrite Z.min_l by lia. reflexivity.
      - rewrite Z.min_r by lia. unfold Js.len in *.
        rewrite !take_ge by lia. reflexivity. }
    rewrite Ht, app_assoc.
    replace (Js.len pre + Js.len a) with (Js.len (pre ++ a))
      by apply len_app.
    apply drop_len_app.
  - intros Hin. apply Hnl. apply elem_of_app. right. right. exact Hin.
Qed.

Lemma mention_span_holds_query_witness :
  Js.slice (js "see @src/ma in") 4 (Some 11) = js "@src/ma".
Proof.
  exact (proj1 (mention_span_holds_query (js "see @src/ma in") 11 1
                  {| query := js "src/ma"; start := 4; end_ := 11 |}
                  eq_refl)).
Defined.

Lemma line_boundary_app pre x :
  line_boundary pre -> line_boundary x -> line_boundary (pre ++ x).
Proof.
  intros Hpre [->|[p ->]].
  - rewrite app_nil_r. exact Hpre.
  - right. exists (pre ++ p). rewrite app_assoc. reflexivity.
Qed.

Lemma take_after_prefix pre x c :
  0 <= c ->
  take (Z.to_nat (Js.len pre + c)) (pre ++ x) = pre ++ take (Z.to_nat c) x.
Proof.
  intros Hc. pose proof (len_nonneg pre).
  rewrite Z2Nat.inj_add by lia. unfold Js.len. rewrite Nat2Z.id.
  apply take_app_add.
Qed.

(** X2: detection reads only the text before the cursor, and the lines
    before the cursor's line only shift the span it reports. *)
Theorem mention_detection_local :
  (forall text text' c m,
     take (Z.to_nat c) text = take (Z.to_nat c) text' ->
     findAtQuery text c m = findAtQuery text' c m) /\
  (forall pre text c m,
     line_boundary pre -> 0 <= c ->
     findAtQuery (pre ++ text) (Js.len pre + c) m
     = shifted (Js.len pre) <$> findAtQuery text c m).
Proof.
  split.
  { intros text text' c m Htake.
    destruct (cursor_line_cases text c)
      as [(p & line & Ht & Hp & Hn & Ha)|(p & a & after & Ht & Hp & Hn & Ha)].
    - rewrite (findAtQuery_no_at _ _ _ _ _ Ht Hp Hn Ha).
      rewrite Htake in Ht.
      rewrite (findAtQuery_no_at _ _ _ _ _ Ht Hp Hn Ha). reflexivity.
    - rewrite (findAtQuery_at _ _ _ _ _ _ Ht Hp Hn Ha).
      rewrite Htake in Ht.
      rewrite (findAtQuery_at _ _ _ _ _ _ Ht Hp Hn Ha). reflexivity. }
  intros pre text c m Hpre Hc.
  pose proof (take_after_prefix pre text c Hc) as Htake.
  destruct (cursor_line_cases text c)
    as [(p & line & Ht & Hp & Hn & Ha)|(p & a & after & Ht & Hp & Hn & Ha)].
  - rewrite (findAtQuery_no_at _ _ _ _ _ Ht Hp Hn Ha).
    rewrite Ht, app_assoc in Htake.
    rewrite (findAtQuery_no_at _ _ _ _ _ Htake
               (line_boundary_app _ _ Hpre Hp) Hn Ha).
    reflexivity.
  - rewrite (findAtQuery_at _ _ _ _ _ _ Ht Hp Hn Ha).
    rewrite Ht, app_assoc in Htake.
    rewrite (findAtQuery_at _ _ _ _ _ _ Htake
               (line_boundary_app _ _ Hpre Hp) Hn Ha).
    repeat case_match; try reflexivity.
    all: simpl; unfold shifted; simpl; rewrite len_app; do 2 f_equal; lia.
Qed.

Lemma mention_detection_local_witness :
  findAtQuery (js "fix @bu and more") 7 1 = findAtQuery (js "fix @bu") 7 1 /\
  findAtQuery (NL ++ js "fix @bu") (Js.len NL + 7) 1
  = shifted (Js.len NL) <$> findAtQuery (js "fix @bu") 7 1.
Proof.
  split.
  - apply (proj1 mention_detection_local). reflexivity.
  - apply (proj2 mention_detection_local).
    + right. exists []. reflexivity.
    + discriminate.
Defined.

Lemma take_typedAt text c ch :
  0 <= c <= Js.len text ->
  take (Z.to_nat (c + 1)) (typedAt text c ch) = take (Z.to_nat c) text ++ [ch].
Proof.
  intros Hc. unfold typedAt.
  rewrite (cons_middle ch), app_assoc.
  apply take_app_length'. rewrite length_app, length_take. simpl.
  unfold Js.len in *. lia.
Qed.

(** X3: with a trigger open at a cursor inside the text, typing a code
    unit other than space, newline and [@] extends the query by it and
    keeps the start; typing a space or a newline closes the trigger. *)
Theorem typing_extends_query text c m tr :
  findAtQuery text c m = Some tr -> c <= Js.len text ->
  (forall ch,
     ch <> space -> ch <> newline -> ch <> at_sign ->
     findAtQuery (typedAt text c ch) (c + 1) m
     = Some {| query := query tr ++ [ch]; start := start tr;
               end_ := c + 1 |}) /\
  findAtQuery (typedAt text c space) (c + 1) m = None /\
  findAtQuery (typedAt text c newline) (c + 1) m = None.
Proof.
  intros Hf Hlen.
  pose proof (findAtQuery_span text c m tr Hf) as (H0 & Hspan & _).
  pose proof (len_nonneg (query tr)) as Hq.
  assert (0 <= c <= Js.len text) as Hc by lia.
  apply findAtQuery_spec in Hf
    as (pre & a & after & Ht & Hp & Hnl & Hat & Hb & Hsp & Hm & ->).
  simpl in *. split; [|split].
  - intros ch Hch1 Hch2 Hch3. apply findAtQuery_spec.
    exists pre, a, (after ++ [ch]).
    rewrite take_typedAt, Ht by assumption.
    rewrite <- !app_assoc. split; [reflexivity|].
    split; [exact Hp|].
    split.
    { intros [Hin|Hin]%elem_of_app;
        [apply Hnl, elem_of_app; left; exact Hin|].
      apply elem_of_cons in Hin as [Heq|Hin]; [discriminate|].
      apply elem_of_app in Hin as [Hin|Hin];
        [apply Hnl, elem_of_app; right; right; exact Hin|].
      apply list_elem_of_singleton in Hin. congruence. }
    split.
    { rewrite elem_of_app, list_elem_of_singleton.
      intros [Hin|Heq]; [contradiction | congruence]. }
    split; [exact Hb|].
    split.
    { rewrite elem_of_app, list_elem_of_singleton.
      intros [Hin|Heq]; [contradiction | congruence]. }
    split; [rewrite len_app, len_cons, len_nil; lia | reflexivity].
  - apply (no_trigger_after_space _ _ _ (take (Z.to_nat c) text) [space]).
    + apply take_typedAt, Hc.
    + rewrite list_elem_of_singleton. discriminate.
    + left.
  - apply (findAtQuery_no_at _ _ _ (take (Z.to_nat c) text ++ [newline]) []).
    + rewrite app_nil_r. apply take_typedAt, Hc.
    + right. eexists. reflexivity.
    + apply not_elem_of_nil.
    + apply not_elem_of_nil.
Qed.

Lemma typing_extends_query_witness :
  findAtQuery (typedAt (js "fix @b rest") 6 117) 7 1
  = Some {| query := js "bu"; start := 4; end_ := 7 |}.
Proof.
  refine (proj1 (typing_extends_query (js "fix @b rest") 6 1
                   {| query := js "b"; start := 4; end_ := 6 |} eq_refl _)
            117 _ _ _); discriminate.
Defined.

End MentionMore.

(* ===================================================================== *)
(** ** More on the completion controller *)
(* ===================================================================== *)

Section ControllerMore.

Context `{SlashUtils}.

Implicit Types (r : Render) (item : Item.t) (tr : AtQueryState)
  (st : ComposerState).

(** A text with a space is no slash query. *)
Lemma slashQuery_space t : space ∈ t -> slashQuery t = None.
Proof.
  intros Hsp. destruct (slashQuery t) as [q|] eqn:Hq; [|reflexivity].
  apply slashQuery_spec in Hq as (-> & _ & Hno).
  apply elem_of_cons in Hsp as [Heq|Hin]; [discriminate | contradiction].
Qed.

Lemma slashQuery_newline t : newline ∈ t -> slashQuery t = None.
Proof.
  intros Hnl. destruct (slashQuery t) as [q|] eqn:Hq; [|reflexivity].
  apply slashQuery_spec in Hq as (_ & Hno & _). contradiction.
Qed.

(** No slash query and no mention at the cursor: nothing is open. *)
Lemma closed_when_no_trigger p st :
  slashQuery (text st) = None ->
  findAtQuery (text st) (cursorIndex st) MIN_AT_QUERY_LENGTH = None ->
  isCompletionOpen {| props := p; state := st |} = false.
Proof.
  intros Hs Hf.
  unfold isCompletionOpen, isAtOpen, atQuery, atState, isSlashOpen. simpl.
  rewrite Hs, Hf. simpl. destruct (disabled p); reflexivity.
Qed.

Lemma applied_text_closed r item x y :
  space ∈ Item.insertText item -> at_sign ∉ Item.insertText item ->
  isCompletionOpen
    (withState r
       (applyText (x ++ Item.insertText item ++ y)
          (Some (Js.len x + Js.len (Item.insertText item))))) = false.
Proof.
  intros Hsp Hat. apply closed_when_no_trigger; simpl.
  - apply slashQuery_space. rewrite !elem_of_app. auto.
  - apply (no_trigger_after_space _ _ _ x (Item.insertText item));
      try assumption.
    rewrite <- len_app, app_assoc. apply take_len_app.
Qed.

(** A commit leaves an index that is 0 at 0. *)
Lemma runEffects_zero r0 r1 :
  completionIndex (state r1) = 0 -> runEffects r0 r1 = r1.
Proof.
  intros Hi.
  destruct (runEffects_state r0 r1) as (Hp & Ht & Hc & Hidx).
  assert (completionIndex (state (runEffects r0 r1)) = 0) as H0.
  { rewrite Hidx, Hi. cbv zeta.
    pose proof (alen_nonneg (activeItems r1)).
    repeat case_match; lia. }
  destruct (runEffects r0 r1) as [p [t i c]], r1 as [p1 [t1 i1 c1]].
  simpl in *. congruence.
Qed.

(** A handler that leaves the index at 0: its render is committed as it
    is, and the effects that follow do not change it. *)
Lemma step_zero_settles e s r1 :
  handle e (committed s) = Some r1 -> completionIndex (state r1) = 0 ->
  exists s',
    step e s = Some s' /\ committed s' = r1 /\ committed (flush s') = r1.
Proof.
  intros Hh Hi. exists (commit (committed s) r1).
  split; [apply (step_zero e s r1 Hh Hi)|]. split; [reflexivity|].
  apply (runEffects_zero (committed s) r1 Hi).
Qed.

(** X4: confirming a candidate whose inserted text has a space and no
    [@] closes the menu, whatever effects are pending: the step is taken,
    nothing is open in the render it commits and the highlighted index is
    back at 0, and so they are once the effects of that render have
    run. *)
Theorem confirm_closes_menu s item :
  isCompletionOpen (committed s) = true ->
  index (activeItems (committed s)) (completionIndex (state (committed s)))
  = Some item ->
  space ∈ Item.insertText item -> at_sign ∉ Item.insertText item ->
  exists s',
    step (KeyDown Enter false) s = Some s' /\
    isCompletionOpen (committed s') = false /\
    completionIndex (state (committed s')) = 0 /\
    isCompletionOpen (committed (flush s')) = false /\
    completionIndex (state (committed (flush s'))) = 0.
Proof.
  intros Hopen Hitem Hsp Hat. set (r := committed s) in *.
  assert (onKeyDown r Enter false
          = Some (if isSlashOpen r then handleSelectSlashItem item
                  else handleSelectFileItem r item)) as Hkey.
  { unfold onKeyDown.
    rewrite (isCompletionOpen_enabled r Hopen), Hopen. simpl.
    destruct (Z.ltb_spec 0 (alen (activeItems r))) as [_|Hn].
    - rewrite Hitem. reflexivity.
    - apply index_Some_alen in Hitem. lia. }
  set (st1 := if isSlashOpen r then handleSelectSlashItem item
              else handleSelectFileItem r item) in *.
  assert (isCompletionOpen (withState r st1) = false /\
          completionIndex st1 = 0) as [Hclosed Hzero].
  { pose proof (applied_text_closed r item [] [] Hsp Hat) as Hwhole.
    rewrite app_nil_r in Hwhole. simpl in Hwhole.
    unfold st1. destruct (isSlashOpen r); [split; [exact Hwhole|reflexivity]|].
    unfold handleSelectFileItem.
    destruct (atState r) as [tr|] eqn:Ha; [|split; [exact Hwhole|reflexivity]].
    split; [|reflexivity].
    apply (applied_text_closed r item _ _ Hsp Hat). }
  destruct (step_zero_settles (KeyDown Enter false) s (withState r st1))
    as (s' & Hstep & Hc & Hf).
  { simpl. fold r. rewrite Hkey. reflexivity. }
  { exact Hzero. }
  exists s'. rewrite Hf, Hc. repeat split; assumption.
Qed.

Lemma escape_mention r m :
  isAtOpen r = true -> onKeyDown r Escape m = Some (clearAtQuery r).
Proof.
  intros Ha. destruct (isAtOpen_inv r Ha) as (Hd & Hs & _).
  unfold onKeyDown. rewrite Hd, (isAtOpen_completion r Ha), Hs. reflexivity.
Qed.

Lemma escape_slash r m :
  isSlashOpen r = true ->
  onKeyDown r Escape m = Some (applyText [] (Some 0)).
Proof.
  intros Hs. unfold onKeyDown.
  rewrite (isSlashOpen_enabled r Hs), (isSlashOpen_completion r Hs), Hs.
  reflexivity.
Qed.

(** X5: dismissing a slash trigger leaves an empty buffer with nothing
    open; dismissing a mention trigger whose [@] stands right after a
    space or a newline leaves nothing open, the cursor where the [@] was
    and the highlighted index at 0.  This holds whatever effects are
    pending, of the render the step commits, and of that render once its
    effects have run: they do not change it. *)
Theorem dismiss_closes_menu :
  (forall s m,
     isSlashOpen (committed s) = true ->
     exists s',
       step (KeyDown Escape m) s = Some s' /\
       text (state (committed s')) = [] /\
       isCompletionOpen (committed s') = false /\
       completionIndex (state (committed s')) = 0 /\
       committed (flush s') = committed s') /\
  (forall s m tr,
     isAtOpen (committed s) = true -> atState (committed s) = Some tr ->
     Js.at_ (text (state (committed s))) (start tr - 1) = Some space \/
     Js.at_ (text (state (committed s))) (start tr - 1) = Some newline ->
     exists s',
       step (KeyDown Escape m) s = Some s' /\
       isCompletionOpen (committed s') = false /\
       completionIndex (state (committed s')) = 0 /\
       cursorIndex (state (committed s')) = start tr /\
       committed (flush s') = committed s').
Proof.
  split.
  - intros s m Hs. set (r := committed s) in *.
    destruct (step_zero_settles (KeyDown Escape m) s
                (withState r (applyText [] (Some 0))))
      as (s' & Hstep & Hc & Hf).
    { simpl. fold r. rewrite (escape_slash r m Hs). reflexivity. }
    { reflexivity. }
    exists s'. rewrite Hf, Hc. split; [exact Hstep|].
    split; [reflexivity|]. split; [|split; reflexivity].
    apply closed_when_no_trigger; reflexivity.
  - intros s m tr Ha Hat Hprev. set (r := committed s) in *.
    destruct (step_zero_settles (KeyDown Escape m) s
                (withState r (clearAtQuery r)))
      as (s' & Hstep & Hc & Hf).
    { simpl. fold r. rewrite (escape_mention r m Ha). reflexivity. }
    { simpl. rewrite (clearAtQuery_span r tr Hat). reflexivity. }
    exists s'. rewrite Hf, Hc. split; [exact Hstep|].
    cbn [withState state]. rewrite (clearAtQuery_span r tr Hat).
    split; [|split; [reflexivity|split; reflexivity]].
    destruct (atState_span r tr Hat) as [[_ Hlen] _].
    set (t := text (state r)) in *.
    assert (exists w, (w = space \/ w = newline) /\
                      t !! Z.to_nat (start tr - 1) = Some w /\
                      1 <= start tr) as (w & Hw & Hlook & Hpos).
    { unfold Js.at_ in Hprev.
      destruct (Z.ltb_spec (start tr - 1) 0) as [|Hge];
        [destruct Hprev; discriminate|].
      destruct Hprev as [Hp|Hp]; eexists; (split; [|split; [exact Hp|lia]]);
        auto. }
    assert (take (Z.to_nat (start tr)) t
            = take (Z.to_nat (start tr - 1)) t ++ [w]) as Hb.
    { replace (Z.to_nat (start tr)) with (S (Z.to_nat (start tr - 1))) by lia.
      apply take_S_r, Hlook. }
    apply closed_when_no_trigger; simpl.
    + destruct Hw as [-> | ->].
      * apply slashQuery_space. rewrite Hb, !elem_of_app,
          list_elem_of_singleton. auto.
      * apply slashQuery_newline. rewrite Hb, !elem_of_app,
          list_elem_of_singleton. auto.
    + assert (take (Z.to_nat (start tr))
                (take (Z.to_nat (start tr)) t ++ drop (Z.to_nat (end_ tr)) t)
              = take (Z.to_nat (start tr - 1)) t ++ [w]) as Htake.
      { rewrite <- Hb. apply take_app_length'.
        rewrite length_take. unfold Js.len in Hlen. lia. }
      destruct Hw as [-> | ->].
      * apply (no_trigger_after_space _ _ _ _ _ Htake).
        -- rewrite list_elem_of_singleton. discriminate.
        -- left.
      * rewrite <- (app_nil_r (_ ++ [newline])) in Htake.
        apply (findAtQuery_no_at _ _ _ _ _ Htake).
        -- right. eexists. reflexivity.
        -- apply not_elem_of_nil.
        -- apply not_elem_of_nil.
Qed.

(** X6: on a reachable screen whose effects have run, no event ends in a
    [TypeError]: every step is defined, and Enter on an open menu with
    candidates finds the item under the highlight.  On any screen, every
    event but a plain Enter is handled. *)
Theorem events_never_throw :
  (forall s e,
     reachable s -> pending s = noPending -> exists s', step e s = Some s') /\
  (forall s,
     reachable s -> pending s = noPending ->
     0 < alen (activeItems (committed s)) ->
     exists item,
       index (activeItems (committed s))
         (completionIndex (state (committed s))) = Some item) /\
  (forall s e, e <> KeyDown Enter false -> exists s', step e s = Some s').
Proof.
  assert (forall s, reachable s -> pending s = noPending ->
            0 < alen (activeItems (committed s)) ->
            exists item,
              index (activeItems (committed s))
                (completionIndex (state (committed s))) = Some item)
    as Hitem.
  { intros s Hs Hp Hn. destruct (reachable_range s Hs Hp) as [_ Hrange].
    specialize (Hrange Hn). unfold index.
    destruct (Z.ltb_spec (completionIndex (state (committed s))) 0); [lia|].
    apply lookup_lt_is_Some. unfold alen in *. lia. }
  split; [|split; [exact Hitem|]].
  - intros s e Hs Hp. unfold step. cbv zeta.
    destruct e; simpl; try (eexists; reflexivity).
    unfold onKeyDown.
    destruct (disabled (props (committed s))); [eexists; reflexivity|].
    destruct (match key with Enter => metaKey | _ => false end);
      [eexists; reflexivity|].
    destruct (negb (isCompletionOpen (committed s))); [eexists; reflexivity|].
    destruct key; try (eexists; reflexivity).
    destruct (Z.ltb_spec 0 (alen (activeItems (committed s)))) as [Hn|_];
      [|eexists; reflexivity].
    destruct (Hitem s Hs Hp Hn) as [item ->]. eexists. reflexivity.
  - intros s e He. unfold step. cbv zeta.
    destruct e; simpl; try (eexists; reflexivity).
    unfold onKeyDown.
    destruct (disabled (props (committed s))); [eexists; reflexivity|].
    destruct key, metaKey; try (exfalso; apply He; reflexivity); simpl;
      destruct (isCompletionOpen (committed s)); simpl; eexists; reflexivity.
Qed.

End ControllerMore.

Lemma confirm_closes_menu_witness :
  exists s',
    @step containsFilter (KeyDown Enter false)
      (settled (highlighting 1 (editing (propsWith [] threeFiles) (js "@ts") 3)))
    = Some s' /\
    isCompletionOpen (committed s') = false /\
    completionIndex (state (committed s')) = 0 /\
    isCompletionOpen (committed (@flush containsFilter s')) = false /\
    completionIndex (state (committed (@flush containsFilter s'))) = 0.
Proof.
  refine (@confirm_closes_menu containsFilter
            (settled (highlighting 1
                        (editing (propsWith [] threeFiles) (js "@ts") 3)))
            (candidate (js "b.ts") (js "b.ts ")) _ _ _ _).
  - vm_compute. reflexivity.
  - vm_compute. reflexivity.
  - apply includes_char. vm_compute. reflexivity.
  - apply includes_char_false. vm_compute. reflexivity.
Defined.

Lemma dismiss_closes_menu_witness :
  exists s',
    @step containsFilter (KeyDown Escape false)
      (settled (editing plainProps (js "fix @bu") 7)) = Some s' /\
    isCompletionOpen (committed s') = false /\
    completionIndex (state (committed s')) = 0 /\
    cursorIndex (state (committed s')) = 4 /\
    committed (@flush containsFilter s') = committed s'.
Proof.
  refine (proj2 (@dismiss_closes_menu containsFilter)
            (settled (editing plainProps (js "fix @bu") 7)) false
            {| query := js "bu"; start := 4; end_ := 7 |} _ _ _).
  - reflexivity.
  - reflexivity.
  - left. reflexivity.
Defined.

Lemma events_never_throw_witness :
  exists s',
    @step containsFilter (KeyDown Enter false)
      (settled (highlighting 2 (editing (propsWith [] threeFiles) (js "@ts") 3)))
    = Some s'.
Proof.
  apply (proj1 (@events_never_throw containsFilter)).
  - apply (@play_reachable containsFilter
             [EffectsRun; Handled (Change (js "@ts") (Some 3)); EffectsRun;
              Handled (KeyDown ArrowDown false);
              Handled (KeyDown ArrowDown false)]
             (mount (propsWith [] threeFiles))).
    + apply reach_mount.
    + vm_compute. reflexivity.
  - reflexivity.
Defined.

(* ===================================================================== *)
(** ** The menu on screen, sending, picking a skill *)
(* ===================================================================== *)

Section ViewAndSend.

Context `{SlashUtils}.

Implicit Types (r : Render) (items : list Item.t).

Lemma SlashMenu_rows items i label :
  0 < alen items ->
  exists rows,
    SlashMenu items i label = ListView rows /\
    length rows = length items /\
    forall k row, rows !! k = Some row ->
                  (row_active row = true <-> Z.of_nat k = i).
Proof.
  intros Hn. unfold SlashMenu.
  destruct (Z.eqb_spec (alen items) 0); [lia|].
  eexists. split; [reflexivity|]. split; [apply length_imap|].
  intros k row Hrow. rewrite list_lookup_imap in Hrow.
  destruct (items !! k); [|discriminate]. injection Hrow as <-. simpl.
  apply Z.eqb_eq.
Qed.

(** X7: a reachable screen whose effects have run shows no menu while
    nothing is open and one menu while a completion is open; that menu is
    the placeholder when there is no candidate, and otherwise has one row
    per candidate, of which exactly the row at the highlighted index is
    marked active. *)
Theorem menu_marks_highlighted s :
  reachable s -> pending s = noPending ->
  let r := committed s in
  (isCompletionOpen r = false -> menus r = []) /\
  (isCompletionOpen r = true ->
   exists label,
     menus r = [SlashMenu (activeItems r) (completionIndex (state r)) label] /\
     (activeItems r = [] ->
      SlashMenu (activeItems r) (completionIndex (state r)) label
      = EmptyView label) /\
     (activeItems r <> [] ->
      exists rows,
        SlashMenu (activeItems r) (completionIndex (state r)) label
        = ListView rows /\
        length rows = length (activeItems r) /\
        (forall k row, rows !! k = Some row ->
           (row_active row = true <-> Z.of_nat k = completionIndex (state r))) /\
        exists row,
          index rows (completionIndex (state r)) = Some row /\
          row_active row = true)).
Proof.
  intros Hs Hp r. destruct (reachable_range s Hs Hp) as [_ Hrange].
  fold r in Hrange. split.
  - unfold isCompletionOpen, menus.
    intros [-> ->]%orb_false_iff. reflexivity.
  - intros Hopen.
    assert (exists label,
              menus r = [SlashMenu (activeItems r)
                           (completionIndex (state r)) label])
      as [label Hmenus].
    { unfold menus, activeItems. unfold isCompletionOpen in Hopen.
      destruct (isSlashOpen r) eqn:Hsl.
      - assert (isAtOpen r = false) as ->.
        { unfold isAtOpen. rewrite Hsl. simpl. apply andb_false_r. }
        eexists. reflexivity.
      - simpl in Hopen. rewrite Hopen. eexists. reflexivity. }
    exists label. split; [exact Hmenus|]. split.
    + intros ->. reflexivity.
    + intros Hne.
      assert (0 < alen (activeItems r)) as Hn.
      { unfold alen. destruct (activeItems r); [contradiction | simpl; lia]. }
      destruct (SlashMenu_rows (activeItems r) (completionIndex (state r))
                  label Hn) as (rows & Hview & Hlen & Hactive).
      exists rows. repeat split; try assumption; try apply Hactive; auto.
      specialize (Hrange Hn). unfold index.
      destruct (Z.ltb_spec (completionIndex (state r)) 0); [lia|].
      destruct (lookup_lt_is_Some_2 rows
                  (Z.to_nat (completionIndex (state r)))) as [row Hrow].
      { unfold alen in *. lia. }
      exists row. split; [exact Hrow|].
      apply (Hactive _ _ Hrow). lia.
Qed.

(** X9: a message is sent only when the composer is enabled, is not
    saving attachments and has a non-blank text or an attachment.
    Sending from any reachable screen, with effects pending or not,
    commits a render with an empty buffer, the cursor at 0 and nothing
    open, and once the effects of that render have run the highlighted
    index is 0 as well.  Otherwise the send button changes nothing: what
    follows is the screen with its pending effects run, the screen itself
    when none is pending. *)
Theorem send_resets_composer :
  (forall s s',
     reachable s -> step SendClicked s = Some s' ->
     canSend (committed s) = true ->
     text (state (committed s')) = [] /\
     cursorIndex (state (committed s')) = 0 /\
     isCompletionOpen (committed s') = false /\
     text (state (committed (flush s'))) = [] /\
     cursorIndex (state (committed (flush s'))) = 0 /\
     completionIndex (state (committed (flush s'))) = 0 /\
     isCompletionOpen (committed (flush s')) = false) /\
  (forall s,
     canSend (committed s) = false ->
     step SendClicked s = Some (flush s) /\
     (pending s = noPending -> step SendClicked s = Some s)) /\
  (forall r,
     Js.trim (text (state r)) = [] -> attachments (props r) = [] ->
     canSend r = false).
Proof.
  split; [|split].
  - intros s s' Hs (r1 & Hh & ->)%step_Some Hcan.
    set (r := committed s) in *.
    assert (state r1
            = {| text := []; completionIndex := completionIndex (state r);
                 cursorIndex := 0 |} /\ props r1 = props r) as [Hst1 Hp1].
    { simpl in Hh. injection Hh as <-. unfold handleSend.
      rewrite Hcan. split; reflexivity. }
    set (r' := withState r1 (applyEffects r (pending s) (state r1))).
    assert (text (applyEffects r (pending s) (state r1)) = [] /\
            cursorIndex (applyEffects r (pending s) (state r1)) = 0 /\
            completionIndex (applyEffects r (pending s) (state r1))
            = completionIndex (applyEffects r (pending s) (state r)))
      as (Ht & Hc & Hi).
    { destruct (applyEffects_state r (pending s) (state r1))
        as (-> & -> & ->).
      destruct (applyEffects_state r (pending s) (state r)) as (_ & _ & ->).
      rewrite Hst1. repeat split. }
    assert (isCompletionOpen r' = false) as Hclosed.
    { apply closed_when_no_trigger; rewrite Ht; [|rewrite Hc]; reflexivity. }
    cbn [commit committed].
    change (committed (flush (commit r r'))) with (runEffects r r').
    destruct (runEffects_state r r') as (_ & Ht' & Hc' & Hi').
    destruct (runEffects_derived r r') as (Ho' & _ & _).
    rewrite Ht', Hc', Ho', Hi'. cbn [r' withState state].
    split; [exact Ht|]. split; [exact Hc|]. split; [exact Hclosed|].
    split; [exact Ht|]. split; [exact Hc|]. split; [|exact Hclosed].
    cbv zeta.
    assert ((if bool_decide (resetDeps r = resetDeps r')
             then completionIndex (applyEffects r (pending s) (state r1))
             else 0) = 0) as ->.
    { destruct (bool_decide_reflect (resetDeps r = resetDeps r'))
        as [Heq|_]; [|reflexivity].
      injection Heq as _ Hopen _. rewrite Hclosed in Hopen.
      destruct (reachable_invariant s Hs) as [_ [Hzero _]].
      destruct (flush_state s) as (_ & _ & _ & Hfi & _).
      destruct (flush_derived s) as (_ & Hitems & _).
      rewrite Hitems, Hfi in Hzero. fold r in Hzero.
      rewrite (closed_no_items r Hopen) in Hzero.
      rewrite Hi. apply Hzero. reflexivity. }
    destruct (bool_decide (clampDeps r = clampDeps r')); [reflexivity|].
    rewrite Hclosed. reflexivity.
  - intros s Hcan.
    assert (step SendClicked s = Some (flush s)) as Hstep.
    { unfold step. cbv zeta. simpl handle. unfold handleSend.
      rewrite Hcan. reflexivity. }
    split; [exact Hstep|].
    intros Hp. rewrite Hstep, (flush_settled s Hp). reflexivity.
  - intros r Ht Ha. unfold canSend. rewrite Ht, Ha. simpl.
    apply andb_false_r.
Qed.

End ViewAndSend.

Lemma menu_marks_highlighted_witness :
  exists label,
    @menus containsFilter
      (highlighting 2 (editing (propsWith [] threeFiles) (js "@ts") 3))
    = [SlashMenu
         (@activeItems containsFilter
            (highlighting 2 (editing (propsWith [] threeFiles) (js "@ts") 3)))
         2 label].
Proof.
  assert (@reachable containsFilter
            (settled (highlighting 2
                        (editing (propsWith [] threeFiles) (js "@ts") 3))))
    as Hs.
  { apply (@play_reachable containsFilter
             [EffectsRun; Handled (Change (js "@ts") (Some 3)); EffectsRun;
              Handled (KeyDown ArrowDown false);
              Handled (KeyDown ArrowDown false)]
             (mount (propsWith [] threeFiles))).
    - apply reach_mount.
    - vm_compute. reflexivity. }
  destruct (proj2 (@menu_marks_highlighted containsFilter _ Hs eq_refl))
    as (label & Hmenus & _).
  - vm_compute. reflexivity.
  - exists label. exact Hmenus.
Defined.

Lemma send_resets_composer_witness :
  let s' := @commit containsFilter (editing plainProps (js "hello") 5)
              (editing plainProps [] 0) in
  text (state (committed s')) = [] /\
  cursorIndex (state (committed s')) = 0 /\
  isCompletionOpen (committed s') = false /\
  text (state (committed (@flush containsFilter s'))) = [] /\
  cursorIndex (state (committed (@flush containsFilter s'))) = 0 /\
  completionIndex (state (committed (@flush containsFilter s'))) = 0 /\
  isCompletionOpen (committed (@flush containsFilter s')) = false.
Proof.
  intros s'.
  refine (proj1 (@send_resets_composer containsFilter)
            (settled (editing plainProps (js "hello") 5)) s' _ _ _).
  - apply (@play_reachable containsFilter
             [EffectsRun; Handled (Change (js "hello") (Some 5))]
             (mount plainProps)).
    + apply reach_mount.
    + vm_compute. reflexivity.
  - vm_compute. reflexivity.
  - vm_compute. reflexivity.
Defined.

Section SkillPick.

Context `{SlashUtils}.

Implicit Types (s p x y name : Js.str) (r : Render).

Lemma trimStart_visible s : startsVisibly s -> Js.trimStart s = s.
Proof. destruct s as [|c s]; simpl; [reflexivity | intros ->; reflexivity]. Qed.

Lemma trimStart_split s :
  exists ws, s = ws ++ Js.trimStart s /\ startsVisibly (Js.trimStart s).
Proof.
  induction s as [|c s (ws & Hs & Hv)]; simpl.
  - exists []. split; [reflexivity | exact I].
  - destruct (Js.isWhiteSpace c) eqn:Hc.
    + exists (c :: ws). split; [simpl; congruence | exact Hv].
    + exists []. split; [reflexivity | exact Hc].
Qed.

Lemma endsVisibly_rev s : endsVisibly s <-> startsVisibly (rev s).
Proof.
  unfold endsVisibly. destruct s as [|c s _] using rev_ind; [reflexivity|].
  rewrite last_snoc, rev_app_distr. reflexivity.
Qed.

(** A trimmed text starts and ends with a visible code unit. *)
Lemma trim_visible s : startsVisibly (Js.trim s) /\ endsVisibly (Js.trim s).
Proof.
  unfold Js.trim.
  destruct (trimStart_split s) as (ws1 & _ & Hv1).
  destruct (trimStart_split (rev (Js.trimStart s))) as (ws2 & Hs2 & Hv2).
  set (t := Js.trimStart s) in *. set (u := Js.trimStart (rev t)) in *.
  split.
  - apply (f_equal (@rev Js.char)) in Hs2.
    rewrite rev_involutive, rev_app_distr in Hs2.
    destruct (rev u) as [|c ru]; [exact I|].
    rewrite Hs2 in Hv1. exact Hv1.
  - apply endsVisibly_rev. rewrite rev_involutive. exact Hv2.
Qed.

(** A text that starts and ends visibly is its own trim, also with one
    more space at its end. *)
Lemma trim_trailing_space s :
  s <> [] -> startsVisibly s -> endsVisibly s -> Js.trim (s ++ [space]) = s.
Proof.
  intros Hne Hs He. unfold Js.trim.
  assert (Js.trimStart (s ++ [space]) = s ++ [space]) as ->
    by (apply trimStart_visible; destruct s; [contradiction | exact Hs]).
  rewrite rev_app_distr. simpl.
  rewrite trimStart_visible by (apply endsVisibly_rev, He).
  apply rev_involutive.
Qed.

Lemma startsWith_app p y : Js.startsWith (p ++ y) p = true.
Proof.
  induction p as [|c p IH]; simpl; [reflexivity|].
  rewrite Z.eqb_refl. exact IH.
Qed.

Lemma includes_infix x p y : Js.includes (x ++ p ++ y) p = true.
Proof.
  induction x as [|c x IH].
  - destruct (p ++ y) eqn:E; simpl; rewrite <- E, startsWith_app; reflexivity.
  - simpl. rewrite IH. apply orb_true_r.
Qed.

Lemma includes_suffix x p : Js.includes (x ++ p) p = true.
Proof.
  rewrite <- (app_nil_r p) at 1. apply includes_infix.
Qed.

Lemma includes_nonempty s c p : Js.includes s (c :: p) = true -> s <> [].
Proof. intros Hi ->. discriminate. Qed.

Lemma endsVisibly_snippet x c name :
  Js.isWhiteSpace c = false -> endsVisibly name ->
  endsVisibly (x ++ c :: name).
Proof.
  intros Hc Hn. unfold endsVisibly in *.
  destruct name as [|d name _] using rev_ind.
  - rewrite last_snoc. exact Hc.
  - rewrite (app_comm_cons name [d] c), app_assoc, last_snoc.
    rewrite last_snoc in Hn. exact Hn.
Qed.

(** After a skill is picked the trimmed buffer contains its snippet. *)
Lemma handleSelectSkill_includes r name :
  endsVisibly name ->
  exists t,
    handleSelectSkill r name = applyText t None /\
    Js.includes (Js.trim t) (js "$" ++ name) = true.
Proof.
  intros Hname. unfold handleSelectSkill.
  change (js "$" ++ name) with ([] ++ 36 :: name).
  change SPACE with [space].
  destruct (trim_visible (text (state r))) as [Hs He].
  set (t := Js.trim (text (state r))) in *.
  assert (endsVisibly (36 :: name)) as Hsn
    by (apply (endsVisibly_snippet [] 36 name); [reflexivity | exact Hname]).
  destruct t as [|c t'] eqn:Ht; cbn [Js.truthy negb].
  - eexists. split; [reflexivity|].
    rewrite app_nil_l, trim_trailing_space; try assumption;
      [|discriminate|reflexivity].
    apply (includes_suffix [] (36 :: name)).
  - destruct (Js.includes (c :: t') ([] ++ 36 :: name)) eqn:Hinc.
    + eexists. split; [reflexivity|]. fold t. rewrite Ht. exact Hinc.
    + eexists. split; [reflexivity|].
      rewrite app_nil_l, !app_assoc, trim_trailing_space.
      * apply includes_suffix.
      * destruct t'; discriminate.
      * exact Hs.
      * apply endsVisibly_snippet; [reflexivity | exact Hname].
Qed.

(** A buffer that already has the snippet is kept as it is. *)
Lemma handleSelectSkill_again r name :
  Js.includes (Js.trim (text (state r))) (js "$" ++ name) = true ->
  handleSelectSkill r name = applyText (text (state r)) None.
Proof.
  intros Hinc. unfold handleSelectSkill.
  assert (Js.truthy (Js.trim (text (state r))) = true) as ->
    by (destruct (Js.trim (text (state r))); [discriminate | reflexivity]).
  rewrite Hinc. reflexivity.
Qed.

(** X8: picking a skill with a non-empty name that does not end in white
    space, on an enabled composer, leaves a buffer whose trimmed text
    contains the [$name] snippet, with the cursor at its end and the
    index at 0; with an empty value, or on a disabled composer, nothing is
    written.  In both cases picking the same skill again changes
    nothing. *)
Theorem skill_pick_idempotent (sc : Screen) name (sc1 : Screen) :
  endsVisibly name ->
  step (SkillPicked name) sc = Some sc1 ->
  step (SkillPicked name) sc1 = Some (settled (committed sc1)) /\
  (disabled (props (committed sc)) = false -> name <> [] ->
   Js.includes (Js.trim (text (state (committed sc1)))) (js "$" ++ name) = true /\
   cursorIndex (state (committed sc1)) = Js.len (text (state (committed sc1))) /\
   completionIndex (state (committed sc1)) = 0) /\
  (disabled (props (committed sc)) = true \/ name = [] -> sc1 = flush sc).
Proof.
  intros Hname Hstep. set (r := committed sc) in *.
  destruct (disabled (props r) || negb (Js.truthy name)) eqn:Hguard.
  - assert (sc1 = flush sc) as ->.
    { unfold step in Hstep. cbv zeta in Hstep. simpl handle in Hstep.
      fold r in Hstep. rewrite Hguard in Hstep.
      injection Hstep as <-. reflexivity. }
    destruct (flush_state sc) as (Hp & _ & _ & _ & Hnone).
    split; [|split].
    + assert (step (SkillPicked name) (flush sc) = Some (flush (flush sc)))
        as ->.
      { assert (handle (SkillPicked name) (committed (flush sc))
                = Some (withState (committed (flush sc))
                          (state (committed (flush sc))))) as Hh.
        { unfold handle. rewrite Hp. fold r. rewrite Hguard. reflexivity. }
        unfold step. cbv zeta. rewrite Hh. reflexivity. }
      rewrite flush_flush. f_equal.
      destruct (flush sc) as [r2 p2]. simpl in Hnone. rewrite Hnone.
      reflexivity.
    + intros Hd Hne. rewrite Hd in Hguard.
      destruct name; [contradiction | discriminate].
    + reflexivity.
  - apply orb_false_iff in Hguard as [Hd Hne].
    destruct (handleSelectSkill_includes r name Hname) as (t & Hst & Hinc).
    set (r1 := withState r (applyText t None)).
    assert (handle (SkillPicked name) r = Some r1) as Hh.
    { simpl. rewrite Hd, Hne, Hst. reflexivity. }
    rewrite (step_zero (SkillPicked name) sc r1 Hh eq_refl) in Hstep.
    injection Hstep as <-. cbn [commit committed].
    split; [|split].
    + assert (handle (SkillPicked name) r1 = Some r1) as Hh1.
      { simpl. rewrite Hd, Hne.
        rewrite (handleSelectSkill_again r1 name Hinc). reflexivity. }
      rewrite (step_zero (SkillPicked name) (commit r r1) r1 Hh1 eq_refl).
      cbn [commit committed]. unfold commit, settled. f_equal. f_equal.
      apply scheduledEffects_same; reflexivity.
    + intros _ _. split; [exact Hinc|]. split; reflexivity.
    + intros [Hd' | ->]; [congruence | discriminate].
Qed.

End SkillPick.

Lemma skill_pick_idempotent_witness :
  let s1 := @commit containsFilter (editing plainProps (js "ship it") 7)
              (editing plainProps (js "ship it $deploy ") 16) in
  @step containsFilter (SkillPicked (js "deploy")) s1
  = Some (settled (committed s1)).
Proof.
  intros s1.
  refine (proj1 (@skill_pick_idempotent containsFilter
                   (settled (editing plainProps (js "ship it") 7))
                   (js "deploy") s1 _ _)).
  - reflexivity.
  - vm_compute. reflexivity.
Defined.

(* ===================================================================== *)
(** ** useFileSearch: invariants *)
(* ===================================================================== *)

Module FileSearchMore.

Import FileSearch FileSearchFacts.

Section Invariants.

Implicit Types (h : Hook) (c : Closure) (o : Options).

Lemma take_awaiting_split id l c rest :
  take_awaiting id l = Some (c, rest) ->
  currentId c = id /\
  exists l1 l2, l = l1 ++ c :: l2 /\ rest = l1 ++ l2.
Proof.
  revert c rest. induction l as [|x l IH]; intros c rest; simpl;
    [discriminate|].
  destruct (Z.eqb_spec (currentId x) id) as [Hx|Hx].
  - intros [= <- <-]. split; [exact Hx|]. exists [], l. auto.
  - destruct (take_awaiting id l) as [[c0 rest0]|]; [|discriminate].
    intros [= <- <-].
    destruct (IH c0 rest0 eq_refl) as (Hid & l1 & l2 & -> & ->).
    split; [exact Hid|]. exists (x :: l1), l2. auto.
Qed.

Lemma render_fields now o h :
  let h' := render now o h in
  deps h <> Some o ->
  requestId h' = requestId h + 1 /\ awaiting h' = awaiting h /\
  requests h' = requests h.
Proof.
  intros h' Hdeps. unfold h', render.
  destruct (bool_decide_reflect (deps h = Some o)); [contradiction|].
  simpl. rewrite effect_requestId.
  destruct (effect_frame now o (cleanup h)) as (-> & -> & _).
  repeat split.
Qed.

Lemma render_timer now o h :
  deps h <> Some o ->
  timer (render now o h) =
    match scheduled o with
    | Some rq => Some {| due := now + timerDelay (debounceMs o);
                         callback := {| currentId := requestId h + 1;
                                        args := rq;
                                        debug := supplied (onDebug o) |} |}
    | None => None
    end.
Proof.
  intros Hdeps. unfold render.
  destruct (bool_decide_reflect (deps h = Some o)); [contradiction|].
  simpl. apply effect_timer.
Qed.

Lemma ids_fresh_step e h h' : ids_fresh h -> step e h = Some h' -> ids_fresh h'.
Proof.
  intros (Hnd & Hpos & Htm & Hcount) Hstep.
  destruct e as [now o|now|now id outcome].
  - apply step_render in Hstep as [_ Hh'].
    destruct (decide (deps (setClock h now) = Some o)) as [Hsame|Hnew].
    { rewrite Hh'. unfold render. rewrite bool_decide_eq_true_2 by assumption.
      split; [exact Hnd|]. split; [exact Hpos|].
      split; [exact Htm | exact Hcount]. }
    destruct (render_fields now o (setClock h now) Hnew) as (Hr & Ha & Hq).
    pose proof (render_timer now o (setClock h now) Hnew) as Ht.
    rewrite <- Hh' in Hr, Ha, Hq, Ht. simpl in Hr, Ha, Hq, Ht.
    unfold ids_fresh. rewrite Hr, Ha, Hq, Ht.
    split; [exact Hnd|].
    split; [intros c Hc; specialize (Hpos c Hc); lia|].
    split.
    + destruct (scheduled o); [|discriminate].
      intros t [= <-]. simpl. split; [reflexivity|].
      intros c Hc. specialize (Hpos c Hc). lia.
    + destruct (timer h), (scheduled o); lia.
  - apply step_fires in Hstep as (t & _ & Ht & _ & Hh').
    destruct (beforeAwait_frame now (callback t)
                (setTimer (setClock h now) None))
      as (Hr & Htimer & Ha & Hq & _).
    rewrite <- Hh' in Hr, Htimer, Ha, Hq. simpl in Hr, Htimer, Ha, Hq.
    destruct (Htm t Ht) as [Hid Hbelow].
    unfold ids_fresh. rewrite Hr, Htimer, Ha, Hq.
    split.
    + rewrite fmap_app. apply NoDup_app. split; [exact Hnd|].
      split; [|apply NoDup_singleton].
      intros x Hx Hx'. apply list_elem_of_singleton in Hx'.
      apply list_elem_of_fmap in Hx as (c & -> & Hc).
      specialize (Hbelow c Hc). simpl in Hx'. lia.
    + split.
      * intros c [Hc|Hc]%elem_of_app; [apply Hpos, Hc|].
        apply list_elem_of_singleton in Hc as ->.
        rewrite Hid. rewrite Ht in Hcount.
        pose proof (alen_nonneg (requests h)). lia.
      * split; [discriminate|].
        rewrite Ht in Hcount. unfold alen in *. rewrite length_app. simpl.
        lia.
  - apply step_settles in Hstep as (c & rest & _ & Htake & _ & _ & Hh').
    destruct (afterAwait_frame now c outcome
                (setAwaiting (setClock h now) rest))
      as (Hr & Htimer & Ha & Hq & _).
    rewrite <- Hh' in Hr, Htimer, Ha, Hq. simpl in Hr, Htimer, Ha, Hq.
    destruct (take_awaiting_split _ _ _ _ Htake) as (_ & l1 & l2 & Hl & ->).
    unfold ids_fresh. rewrite Hr, Htimer, Ha, Hq.
    rewrite Hl in Hnd, Hpos, Htm.
    assert (forall x, x ∈ l1 ++ l2 -> x ∈ l1 ++ c :: l2) as Hsub.
    { intros x. rewrite !elem_of_app, elem_of_cons. tauto. }
    split.
    + rewrite fmap_app in *. rewrite fmap_cons in Hnd.
      apply NoDup_app in Hnd as (Hn1 & Hdis & Hn2).
      apply NoDup_cons in Hn2 as [_ Hn2].
      apply NoDup_app. split; [exact Hn1|]. split; [|exact Hn2].
      intros x Hx Hx'. apply (Hdis x Hx). right. exact Hx'.
    + split; [intros x Hx; apply Hpos, Hsub, Hx|].
      split; [|exact Hcount].
      intros t Ht. destruct (Htm t Ht) as [Hid Hbelow].
      split; [exact Hid|]. intros x Hx. apply Hbelow, Hsub, Hx.
Qed.

Lemma request_ids_bound h :
  reachable h -> forall c, c ∈ awaiting h -> currentId c <= requestId h.
Proof. intros Hr. apply (proj1 (reachable_ids_bounded h Hr)). Qed.

(** X10: in every reachable state of the hook the pending requests have
    pairwise distinct sequence numbers between 1 and the counter, a
    pending timer carries the counter itself, and the number of requests
    sent (plus the pending timer) never exceeds the number of times the
    effect ran. *)
Theorem request_ids_fresh h : reachable h -> ids_fresh h.
Proof.
  induction 1 as [|e h h' _ IH Hstep].
  - unfold ids_fresh. simpl.
    split; [apply NoDup_nil_2|].
    split; [intros c Hc; inversion Hc|].
    split; [discriminate | reflexivity].
  - apply (ids_fresh_step e h h' IH Hstep).
Qed.

Lemma run_reachable es h h' :
  reachable h -> run es h = Some h' -> reachable h'.
Proof.
  revert h. induction es as [|e es IH]; intros h Hr; simpl.
  - intros [= <-]. exact Hr.
  - destruct (step e h) as [h1|] eqn:Hstep; [|discriminate].
    apply IH. apply (reach_step e h h1 Hr Hstep).
Qed.

Lemma normalize_no_blank response : [] ∉ normalize response.
Proof.
  destruct response as [values|]; simpl; [|apply not_elem_of_nil].
  intros [Hv _]%list_elem_of_filter. discriminate.
Qed.

Lemma no_blank_step e h h' :
  [] ∉ items h -> step e h = Some h' -> [] ∉ items h'.
Proof.
  intros Hno Hstep. destruct e as [now o|now|now id outcome].
  - apply step_render in Hstep as [_ ->]. unfold render.
    destruct (bool_decide _); [exact Hno|]. simpl.
    unfold effect. repeat case_match; simpl;
      first [exact Hno | apply not_elem_of_nil].
  - apply step_fires in Hstep as (t & _ & _ & _ & ->).
    unfold beforeAwait, callOnDebug. destruct (debug (callback t)); exact Hno.
  - apply step_settles in Hstep as (c & rest & _ & _ & Hid & _ & ->).
    destruct (Z.eq_dec (requestId h) (currentId c)) as [Hcur|Hstale].
    + destruct outcome.
      * rewrite afterAwait_fulfilled by exact Hcur.
        unfold callOnDebug. destruct (debug c); simpl;
          apply normalize_no_blank.
      * rewrite afterAwait_rejected by exact Hcur.
        unfold callOnDebug. destruct (debug c); simpl;
          apply not_elem_of_nil.
    + rewrite afterAwait_stale by exact Hstale. exact Hno.
Qed.

(** X11: the response of the current request replaces the candidates by
    its non-empty strings, in their order (by nothing when it is no
    array), and clears the loading flag; no reachable state of the hook
    displays an empty string. *)
Theorem response_applied :
  (forall h now id response h',
     step (Settles now id (Fulfilled response)) h = Some h' ->
     id = requestId h ->
     items h' = normalize response /\ isLoading h' = false) /\
  (forall values v,
     v ∈ normalize (ArrayOf values) <-> v ∈ values /\ v <> []) /\
  (forall values,
     ([] ∉ values) -> normalize (ArrayOf values) = values) /\
  normalize NotAnArray = [] /\
  (forall h, reachable h -> [] ∉ items h).
Proof.
  split.
  { intros h now id response h' (c & rest & _ & _ & Hid & _ & ->)%step_settles.
    intros Hcur. rewrite afterAwait_fulfilled by (simpl; congruence).
    unfold callOnDebug. destruct (debug c); split; reflexivity. }
  split.
  { intros values v. simpl. rewrite list_elem_of_filter.
    destruct v; simpl; split; intros [? ?]; split; try assumption;
      try discriminate; try reflexivity; contradiction. }
  split.
  { intros values Hno. simpl. induction values as [|v values IH];
      [reflexivity|].
    apply not_elem_of_cons in Hno as [Hv Hno].
    rewrite filter_cons_True by (destruct v; [contradiction | reflexivity]).
    rewrite IH by exact Hno. reflexivity. }
  split; [reflexivity|].
  induction 1 as [|e h h' _ IH Hstep].
  - apply not_elem_of_nil.
  - apply (no_blank_step e h h' IH Hstep).
Qed.

Lemma loading_backed_step e h h' :
  ids_fresh h -> loading_backed h -> step e h = Some h' -> loading_backed h'.
Proof.
  intros (_ & _ & Htm & _) Hload Hstep Hup.
  destruct e as [now o|now|now id outcome].
  - apply step_render in Hstep as [_ Hh'].
    destruct (decide (deps (setClock h now) = Some o)) as [Hsame|Hnew].
    { rewrite Hh' in *. unfold render in *.
      rewrite bool_decide_eq_true_2 in * by assumption.
      apply Hload, Hup. }
    pose proof (render_timer now o (setClock h now) Hnew) as Ht.
    rewrite <- Hh' in Ht.
    destruct (scheduled o) as [rq|] eqn:Hs; [left; eexists; exact Ht|].
    exfalso. rewrite Hh' in Hup. unfold render in Hup.
    rewrite bool_decide_eq_false_2 in Hup by assumption.
    simpl in Hup. unfold effect, scheduled in *.
    repeat case_match; simpl in *; discriminate.
  - apply step_fires in Hstep as (t & _ & Ht & _ & Hh').
    destruct (beforeAwait_frame now (callback t)
                (setTimer (setClock h now) None))
      as (Hr & _ & Ha & _).
    rewrite <- Hh' in Hr, Ha. simpl in Hr, Ha.
    right. exists (callback t). rewrite Ha, Hr. split.
    + apply elem_of_app. right. left.
    + apply (Htm t Ht).
  - apply step_settles in Hstep as (c & rest & _ & Htake & Hid & _ & Hh').
    destruct (afterAwait_frame now c outcome
                (setAwaiting (setClock h now) rest))
      as (Hr & Htimer & Ha & _).
    rewrite <- Hh' in Hr, Htimer, Ha. simpl in Hr, Htimer, Ha.
    destruct (Z.eq_dec (requestId h) (currentId c)) as [Hcur|Hstale].
    + exfalso. rewrite Hh' in Hup. destruct outcome.
      * rewrite afterAwait_fulfilled in Hup by exact Hcur. discriminate.
      * rewrite afterAwait_rejected in Hup by exact Hcur. discriminate.
    + rewrite Hh', afterAwait_stale in Hup by exact Hstale. simpl in Hup.
      rewrite Htimer, Ha, Hr.
      destruct (Hload Hup) as [Ht|(c0 & Hc0 & Hid0)]; [left; exact Ht|].
      right. exists c0. split; [|exact Hid0].
      destruct (take_awaiting_split _ _ _ _ Htake) as (_ & l1 & l2 & Hl & ->).
      rewrite Hl in Hc0. apply elem_of_app in Hc0 as [Hc0|Hc0].
      * apply elem_of_app. left. exact Hc0.
      * apply elem_of_cons in Hc0 as [->|Hc0]; [congruence|].
        apply elem_of_app. right. exact Hc0.
Qed.

(** X13: whenever the loading flag of a reachable state is up, the timer
    of the current query is pending or the current request is still out:
    the flag does not stay up with nothing left to clear it. *)
Theorem loading_is_backed h : reachable h -> loading_backed h.
Proof.
  intros Hr.
  assert (ids_fresh h /\ loading_backed h) as [_ Hl]; [|exact Hl].
  induction Hr as [|e h h' _ [IHf IHl] Hstep].
  - split; [|intros Hup; discriminate].
    unfold ids_fresh. simpl.
    split; [apply NoDup_nil_2|].
    split; [intros c Hc; inversion Hc|].
    split; [discriminate | reflexivity].
  - split; [apply (ids_fresh_step e h h' IHf Hstep)|].
    apply (loading_backed_step e h h' IHf IHl Hstep).
Qed.

Lemma quiet_step sent e h h' :
  quiet sent h -> rendersOf [e] = [] -> step e h = Some h' -> quiet sent h'.
Proof.
  intros (Hi & Hl & Ht & Hq & Hstale) Hnr Hstep.
  destruct e as [now o|now|now id outcome]; [discriminate| |].
  - apply step_fires in Hstep as (t & _ & Ht' & _). congruence.
  - pose proof Hstep as (c & rest & _ & Htake & Hid & Hin & _)%step_settles.
    destruct (take_awaiting_split _ _ _ _ Htake) as (_ & l1 & l2 & Hl12 & ->).
    assert (id <> requestId h) as Hne
      by (rewrite <- Hid; apply Hstale, Hin).
    destruct (settles_stale now id outcome h h' Hstep Hne)
      as (Hi' & Hl' & _ & Hr' & Ht'' & Hq').
    unfold quiet. rewrite Hi', Hl', Hr', Ht'', Hq'.
    repeat split; try assumption.
    apply step_settles in Hstep as (c1 & rest1 & _ & Htake1 & _ & _ & ->).
    rewrite Htake in Htake1. injection Htake1 as <- <-.
    destruct (afterAwait_frame now c outcome
                (setAwaiting (setClock h now) (l1 ++ l2)))
      as (_ & _ & -> & _). simpl.
    intros x Hx. apply Hstale. rewrite Hl12.
    rewrite elem_of_app in *. rewrite elem_of_cons. tauto.
Qed.

(** X12: once a render closes the search (blank query, disabled hook or
    no workspace), the candidates are empty and the loading flag is down,
    and they stay so, with no timer and no further request, whatever
    fires or settles before the next render that changes the options. *)
Theorem closed_search_stays_quiet h now o h1 es h2 :
  reachable h -> deps h <> Some o -> scheduled o = None ->
  step (Render now o) h = Some h1 ->
  rendersOf es = [] -> run es h1 = Some h2 ->
  items h2 = [] /\ isLoading h2 = false /\ timer h2 = None /\
  requests h2 = requests h.
Proof.
  intros Hr Hdeps Hs Hstep Hnr Hrun.
  assert (quiet (requests h) h1) as Hq.
  { pose proof (request_ids_bound h Hr) as Hpos.
    apply step_render in Hstep as [_ Hh1].
    assert (deps (setClock h now) <> Some o) as Hnew by exact Hdeps.
    destruct (render_fields now o (setClock h now) Hnew) as (Hrid & Ha & Hreq).
    pose proof (render_timer now o (setClock h now) Hnew) as Ht.
    rewrite <- Hh1 in Hrid, Ha, Hreq, Ht. simpl in Hrid, Ha, Hreq, Ht.
    rewrite Hs in Ht.
    assert (items h1 = [] /\ isLoading h1 = false) as [Hi Hl].
    { rewrite Hh1. unfold render.
      rewrite bool_decide_eq_false_2 by assumption. simpl.
      unfold effect, scheduled in *.
      repeat case_match; simpl in *; try discriminate; split; reflexivity. }
    unfold quiet. rewrite Ha, Hrid. repeat split; try assumption.
    intros c Hc. specialize (Hpos c Hc). lia. }
  clear Hstep. revert h1 Hq Hrun.
  induction es as [|e es IH]; intros h1 Hq Hrun; simpl in Hrun.
  - injection Hrun as <-. destruct Hq as (Hi & Hl & Ht & Hreq & _). auto.
  - destruct (step e h1) as [h1'|] eqn:Hstep; [|discriminate].
    assert (rendersOf [e] = [] /\ rendersOf es = []) as [He Hes].
    { destruct e; simpl in *; [discriminate | auto | auto]. }
    apply (IH Hes h1'); [|exact Hrun].
    apply (quiet_step _ e h1 h1' Hq He Hstep).
Qed.

Lemma scheduled_wellFormed o rq : scheduled o = Some rq -> wellFormed rq.
Proof.
  intros (_ & w & q & _ & Hw & _ & Hq & ->)%scheduled_Some.
  destruct (trim_visible q) as [Hs He]. repeat split; assumption.
Qed.

Lemma wellFormed_step e h h' :
  (forall rq, rq ∈ requests h -> wellFormed rq) ->
  (forall t, timer h = Some t -> wellFormed (args (callback t))) ->
  step e h = Some h' ->
  (forall rq, rq ∈ requests h' -> wellFormed rq) /\
  (forall t, timer h' = Some t -> wellFormed (args (callback t))).
Proof.
  intros Hreq Htm Hstep. destruct e as [now o|now|now id outcome].
  - apply step_render in Hstep as [_ Hh'].
    destruct (decide (deps (setClock h now) = Some o)) as [Hsame|Hnew].
    { rewrite Hh'. unfold render. rewrite bool_decide_eq_true_2 by assumption.
      split; assumption. }
    destruct (render_fields now o (setClock h now) Hnew) as (_ & _ & Hq).
    pose proof (render_timer now o (setClock h now) Hnew) as Ht.
    rewrite <- Hh' in Hq, Ht. simpl in Hq, Ht. rewrite Hq, Ht.
    split; [exact Hreq|].
    destruct (scheduled o) as [rq|] eqn:Hs; [|discriminate].
    intros t [= <-]. simpl. apply (scheduled_wellFormed o rq Hs).
  - apply step_fires in Hstep as (t & _ & Ht & _ & Hh').
    destruct (beforeAwait_frame now (callback t)
                (setTimer (setClock h now) None))
      as (_ & Htimer & _ & Hq & _).
    rewrite <- Hh' in Htimer, Hq. simpl in Htimer, Hq. rewrite Htimer, Hq.
    split; [|discriminate].
    intros rq [Hin|Hin]%elem_of_app; [apply Hreq, Hin|].
    apply list_elem_of_singleton in Hin as ->. apply Htm, Ht.
  - apply step_settles in Hstep as (c & rest & _ & _ & _ & _ & Hh').
    destruct (afterAwait_frame now c outcome
                (setAwaiting (setClock h now) rest))
      as (_ & Htimer & _ & Hq & _).
    rewrite <- Hh' in Htimer, Hq. simpl in Htimer, Hq. rewrite Htimer, Hq.
    split; assumption.
Qed.

(** X14: every request a reachable hook has sent names a workspace and
    carries a trimmed, non-empty query: the backend is never asked for a
    blank query, nor for one with white space around it. *)
Theorem requests_wellFormed h rq :
  reachable h -> rq ∈ requests h -> wellFormed rq.
Proof.
  intros Hr.
  assert ((forall rq, rq ∈ requests h -> wellFormed rq) /\
          (forall t, timer h = Some t -> wellFormed (args (callback t))))
    as [Hreq _]; [|apply Hreq].
  induction Hr as [|e h h' _ [IHr IHt] Hstep].
  - split; [intros x Hx; inversion Hx | discriminate].
  - apply (wellFormed_step e h h' IHr IHt Hstep).
Qed.

End Invariants.

Lemma request_ids_fresh_witness : ids_fresh (after overtaken).
Proof.
  apply request_ids_fresh.
  apply (run_reachable overtaken initial); [apply reach_initial|].
  vm_compute. reflexivity.
Defined.

Lemma loading_is_backed_witness : loading_backed (after inFlight).
Proof.
  apply loading_is_backed.
  apply (run_reachable inFlight initial); [apply reach_initial|].
  vm_compute. reflexivity.
Defined.

Lemma response_applied_witness :
  items (after overtaken) = normalize (ArrayOf [js "src/abc.ts"]) /\
  isLoading (after overtaken) = false.
Proof.
  refine (proj1 response_applied
            (after [Render 0 (asking "ab"); TimerFires 200;
                    Render 250 (asking "abc"); TimerFires 450])
            500 2 (ArrayOf [js "src/abc.ts"]) (after overtaken) _ _).
  - vm_compute. reflexivity.
  - vm_compute. reflexivity.
Defined.

Lemma closed_search_stays_quiet_witness :
  items (after (inFlight
                ++ [Render 250 (withDefaults (Some (js "ws")) None (Some 0%nat));
                    Settles 300 1 (Fulfilled (ArrayOf [js "src/ab.ts"]))]))
  = [] /\
  isLoading (after (inFlight
                    ++ [Render 250 (withDefaults (Some (js "ws")) None (Some 0%nat));
                        Settles 300 1 (Fulfilled (ArrayOf [js "src/ab.ts"]))]))
  = false /\
  timer (after (inFlight
                ++ [Render 250 (withDefaults (Some (js "ws")) None (Some 0%nat));
                    Settles 300 1 (Fulfilled (ArrayOf [js "src/ab.ts"]))]))
  = None /\
  requests (after (inFlight
                   ++ [Render 250 (withDefaults (Some (js "ws")) None (Some 0%nat));
                       Settles 300 1 (Fulfilled (ArrayOf [js "src/ab.ts"]))]))
  = requests (after inFlight).
Proof.
  refine (closed_search_stays_quiet (after inFlight) 250
            (withDefaults (Some (js "ws")) None (Some 0%nat))
            (after (inFlight
                    ++ [Render 250 (withDefaults (Some (js "ws")) None (Some 0%nat))]))
            [Settles 300 1 (Fulfilled (ArrayOf [js "src/ab.ts"]))]
            _ _ _ _ _ _ _).
  - apply (run_reachable inFlight initial); [apply reach_initial|].
    vm_compute. reflexivity.
  - vm_compute. discriminate.
  - reflexivity.
  - vm_compute. reflexivity.
  - reflexivity.
  - vm_compute. reflexivity.
Defined.

Lemma requests_wellFormed_witness :
  wellFormed {| req_workspaceId := js "ws"; req_query := js "ab";
                req_limit := 200 |}.
Proof.
  apply (requests_wellFormed (after inFlight)).
  - apply (run_reachable inFlight initial); [apply reach_initial|].
    vm_compute. reflexivity.
  - vm_compute. left.
Defined.

End FileSearchMore.

(* ===================================================================== *)
(** ** Pointer and keyboard agree *)
(* ===================================================================== *)

Section PointerAndKeys.

Context `{SlashUtils}.

Implicit Types (r : Render) (item : Item.t) (s : Screen).

(** With no reset pending, an index inside the list on screen is not
    changed by the pending effects. *)
Lemma applyEffects_inside r p st :
  resetPending p = false ->
  0 <= completionIndex st < alen (activeItems r) ->
  applyEffects r p st = st.
Proof.
  intros Hp Hi.
  destruct (applyEffects_state r p st) as (Ht & Hc & Hidx).
  assert (completionIndex (applyEffects r p st) = completionIndex st) as H0.
  { rewrite Hidx, Hp. cbv zeta. repeat case_match; lia. }
  destruct (applyEffects r p st) as [t i c], st as [t1 i1 c1].
  simpl in *. congruence.
Qed.

(** The screen after the pointer entered row [i]. *)
Lemma hover_step s i item :
  menuItems (committed s) !! i = Some item ->
  resetPending (pending s) = false ->
  step (MenuHover i) s
  = Some (settled (withState (committed s)
                     (setCompletionIndex (fun _ => Z.of_nat i)
                        (state (committed s))))).
Proof.
  intros Hi Hp. set (r := committed s) in *.
  unfold step. cbv zeta. fold r. simpl handle.
  unfold onMenuHover. rewrite Hi. cbn [state].
  rewrite applyEffects_inside.
  - f_equal. unfold commit, settled. f_equal.
    apply scheduledEffects_same;
      apply (deps_same r (withState r _) eq_refl eq_refl eq_refl).
  - exact Hp.
  - simpl. apply lookup_lt_Some in Hi. rewrite menuItems_active in Hi.
    unfold alen. lia.
Qed.

Lemma onMenuClick_zero r i item :
  menuItems r !! i = Some item -> completionIndex (onMenuClick r i) = 0.
Proof.
  intros Hi. unfold onMenuClick. rewrite Hi.
  destruct (isSlashOpen r); [reflexivity|].
  unfold handleSelectFileItem. destruct (atState r); reflexivity.
Qed.

(** X15: moving the pointer onto a row and pressing Enter gives the same
    screen as clicking that row, on every screen on which the reset is
    not pending (so on every screen whose effects have run). *)
Theorem hover_then_enter_is_click s i item :
  menuItems (committed s) !! i = Some item ->
  resetPending (pending s) = false ->
  play [Handled (MenuHover i); Handled (KeyDown Enter false)] s
  = step (MenuClick i) s.
Proof.
  intros Hi Hp. cbn [play act]. rewrite (hover_step s i item Hi Hp).
  set (r := committed s) in *.
  set (r1 := withState r (setCompletionIndex (fun _ => Z.of_nat i) (state r))).
  destruct (derived_same r r1 eq_refl eq_refl eq_refl)
    as (Hs & Hq & _ & Ho & Ha).
  destruct (deps_same r r1 eq_refl eq_refl eq_refl) as (Hrd & Hcd & _).
  assert (atState r1 = atState r) as Hat.
  { unfold atState. rewrite <- Hs. reflexivity. }
  pose proof (menuItems_open r i item Hi) as Hopen.
  assert (onKeyDown r1 Enter false = Some (onMenuClick r i)) as Hkey.
  { unfold onKeyDown. rewrite <- Ho, <- Ha, Hopen.
    change (disabled (props r1)) with (disabled (props r)).
    rewrite (isCompletionOpen_enabled r Hopen). simpl.
    assert (index (activeItems r) (Z.of_nat i) = Some item) as Hidx.
    { unfold index. destruct (Z.ltb_spec (Z.of_nat i) 0); [lia|].
      rewrite Nat2Z.id. exact Hi. }
    destruct (Z.ltb_spec 0 (alen (activeItems r))) as [_|Hn];
      [|apply index_Some_alen in Hidx; lia].
    rewrite Hidx. unfold onMenuClick. rewrite Hi, <- Hs.
    destruct (isSlashOpen r); [reflexivity|].
    unfold handleSelectFileItem. rewrite Hat. reflexivity. }
  assert (step (KeyDown Enter false) (settled r1)
          = Some (commit r1 (withState r (onMenuClick r i)))) as ->.
  { unfold step. cbv zeta. cbn [settled committed pending].
    simpl handle. rewrite Hkey. reflexivity. }
  assert (step (MenuClick i) s
          = Some (commit r (withState r (onMenuClick r i)))) as ->.
  { apply (step_zero (MenuClick i) s (withState r (onMenuClick r i)));
      [reflexivity|].
    apply (onMenuClick_zero r i item Hi). }
  unfold commit, scheduledEffects. rewrite <- Hrd, <- Hcd. reflexivity.
Qed.

End PointerAndKeys.

Lemma hover_then_enter_is_click_witness :
  @play containsFilter [Handled (MenuHover 1); Handled (KeyDown Enter false)]
    (settled (editing (propsWith [] threeFiles) (js "@ts") 3))
  = @step containsFilter (MenuClick 1)
      (settled (editing (propsWith [] threeFiles) (js "@ts") 3)).
Proof.
  apply (@hover_then_enter_is_click containsFilter _ 1
           (candidate (js "b.ts") (js "b.ts "))).
  - reflexivity.
  - reflexivity.
Defined.
